(** * miniservicio-auth: token issuance and lookup (index.js)

    A shallow embedding of the token lifecycle of [index.js]: the token
    generator [generarToken], the in-memory store [tokensTemporales], the
    handlers of [/enviar-token] and [/token-enviado], the helper
    [obtenerToken] and the periodic clean-up started with [setInterval].

    Conventions of the model.
    - Dates are [Z], the milliseconds of [Date.prototype.valueOf]; the
      comparison [ahora > data.expira] of two [Date]s is [<] on them.
      The expiry date is computed in [Z]; [configuracion_regular] says when
      this is the date the code computes (integer setting, exact binary64
      arithmetic, no Invalid Date), and the results that speak of the value
      of the expiry date are stated under it.
    - Each [new Date()] / [Date.now()] is a reading of the clock handed to
      the handler by its caller.
    - [crypto.randomBytes], [transporter.sendMail] and [process.env] are
      collaborators: their answers are arguments of the handlers.
    - The clean-up is modelled twice: [limpieza] is the run in which no
      string conversion throws, [limpieza_temporizador] is the callback as
      it is, with the conversion of the key that [console.log] makes.
    - The other [console.log]s, the histogram and the gauge are left out. *)

From Stdlib Require Import ZArith Ascii String List Lia.
From Stdlib Require Import Strings.Byte.
From stdpp Require Import base option countable gmap strings list fin_maps relations.

Local Open Scope Z_scope.

(** ** JavaScript values that reach the handlers *)

Module JS.

(** The values a parsed JSON body or a parsed query string can hold in a
    field. [JNum] covers the integer-valued numbers; [JRef] is an array or
    an object, known by its reference only. *)
Inductive jsval : Type :=
| JUndefined
| JNull
| JBool (b : bool)
| JNum (n : Z)
| JStr (s : string)
| JRef (r : positive).

#[global] Instance jsval_eq_dec : EqDecision jsval.
Proof. solve_decision. Defined.

Definition jsval_to_sum (v : jsval) : unit + (unit + (bool + (Z + (string + positive)))) :=
  match v with
  | JUndefined => inl tt
  | JNull => inr (inl tt)
  | JBool b => inr (inr (inl b))
  | JNum n => inr (inr (inr (inl n)))
  | JStr s => inr (inr (inr (inr (inl s))))
  | JRef r => inr (inr (inr (inr (inr r))))
  end.

Definition jsval_of_sum (x : unit + (unit + (bool + (Z + (string + positive))))) : jsval :=
  match x with
  | inl _ => JUndefined
  | inr (inl _) => JNull
  | inr (inr (inl b)) => JBool b
  | inr (inr (inr (inl n))) => JNum n
  | inr (inr (inr (inr (inl s)))) => JStr s
  | inr (inr (inr (inr (inr r)))) => JRef r
  end.

#[global] Instance jsval_countable : Countable jsval :=
  inj_countable' jsval_to_sum jsval_of_sum
    (fun v => match v with
              | JUndefined | JNull | JBool _ | JNum _ | JStr _ | JRef _ => eq_refl
              end).

(** [ToBoolean]: what [!v] and [a || b] test. *)
Definition truthy (v : jsval) : bool :=
  match v with
  | JUndefined | JNull => false
  | JBool b => b
  | JNum n => negb (n =? 0)
  | JStr EmptyString => false
  | JStr (String _ _) => true
  | JRef _ => true
  end.

(** [a === b] on these values (also the key comparison of a [Map]). *)
Definition estricto_igual (a b : jsval) : bool := bool_decide (a = b).

(** A parsed object ([req.body], [req.query]) and the reading of one of
    its properties, [undefined] when the key is not there. *)
Abbreviation objeto := (gmap string jsval).

Definition prop (o : objeto) (k : string) : jsval := default JUndefined (o !! k).

End JS.
Export JS.

(** ** The token generator *)

Module Base64.

Definition alfabeto : list ascii :=
  list_ascii_of_string
    "ABCDEFGHIJKLMNOPQRSTUVWXYZabcdefghijklmnopqrstuvwxyz0123456789+/".

Definition octeto (b : byte) : Z := Z.of_N (Byte.to_N b).

(** The six bits of [n] that start at bit [k]. *)
Definition sexteto (n k : Z) : Z := Z.land (Z.shiftr n k) 63.

Definition letra (i : Z) : ascii := nth (Z.to_nat i) alfabeto "="%char.

(** [Buffer.prototype.toString("base64")]: three bytes give four letters,
    a last group of one or two bytes is padded with [=]. *)
Fixpoint codificar (bs : list byte) : list ascii :=
  match bs with
  | [] => []
  | [a] =>
      let n := Z.shiftl (octeto a) 16 in
      [letra (sexteto n 18); letra (sexteto n 12); "="%char; "="%char]
  | [a; b] =>
      let n := Z.lor (Z.shiftl (octeto a) 16) (Z.shiftl (octeto b) 8) in
      [letra (sexteto n 18); letra (sexteto n 12); letra (sexteto n 6); "="%char]
  | a :: b :: c :: resto =>
      let n := Z.lor (Z.lor (Z.shiftl (octeto a) 16) (Z.shiftl (octeto b) 8)) (octeto c) in
      letra (sexteto n 18) :: letra (sexteto n 12) :: letra (sexteto n 6)
        :: letra (sexteto n 0) :: codificar resto
  end.

End Base64.

(** The class [\w] of a regular expression without flags: [A-Za-z0-9_]. *)
Definition es_palabra (c : ascii) : bool :=
  let n := Z.of_N (N_of_ascii c) in
  ((48 <=? n) && (n <=? 57)) || ((65 <=? n) && (n <=? 90))
  || ((97 <=? n) && (n <=? 122)) || (n =? 95).

(** Letters and digits only. *)
Definition es_alfanumerico (c : ascii) : bool :=
  let n := Z.of_N (N_of_ascii c) in
  ((48 <=? n) && (n <=? 57)) || ((65 <=? n) && (n <=? 90))
  || ((97 <=? n) && (n <=? 122)).

(** A character that [\W] leaves in place only if it is a letter or a digit. *)
Definition letra_limpia (c : ascii) : Prop :=
  es_palabra c = true -> es_alfanumerico c = true.

(** [s.replace(/\W/g, "")] *)
Definition quitar_no_palabra (s : list ascii) : list ascii := List.filter es_palabra s.

(** [s.substring(0, n)] *)
Definition substring0 (n : nat) (s : list ascii) : list ascii := firstn n s.

(** [generarToken()]; [randomBytes] answers [crypto.randomBytes]. *)
Definition generarToken (randomBytes : nat -> list byte) : string :=
  string_of_list_ascii
    (substring0 8%nat (quitar_no_palabra (Base64.codificar (randomBytes 6%nat)))).

(** ** The state of the service and its collaborators *)

(** A value of [tokensTemporales]: the object literal stored by
    [/enviar-token]. *)
Record registro : Type := Registro {
  token : string;
  tipo : jsval;
  creado : Z;
  expira : Z
}.

(** The holes of the HTML template of the mail. *)
Record plantilla : Type := Plantilla {
  h_subject : string;
  h_tipo : jsval;
  h_token : string;
  h_minutos : string + Z
}.

(** The argument of [transporter.sendMail] (without [from]). *)
Record mensaje : Type := Mensaje {
  to : jsval;
  subject : string;
  html : plantilla
}.

(** What the promise of [transporter.sendMail] settles to. *)
Inductive envio : Type :=
| Enviado (messageId : string)
| Rechazado (message : string).

(** Calls to the collaborators, oldest first. *)
Inductive efecto : Type :=
| EInc
| ESendMail (m : mensaje).

Record mundo : Type := Mundo {
  tokensTemporales : gmap jsval registro;
  tokensCounter : Z;
  efectos : list efecto
}.

(** The body given to [res.json]. *)
Inductive cuerpo : Type :=
| CError (error : string)
| CErrorDetalle (error detalle : string)
| CMensaje (mensaje : string)
| CEnviado (mensaje tk : string) (tp : jsval) (timestamp : Z) (messageId : string)
| CToken (mensaje : string) (correo : jsval) (tk : string) (tp : jsval) (cre exp : Z).

Record respuesta : Type := Respuesta {
  status : Z;
  json : cuerpo
}.

Record peticion : Type := Peticion {
  body : objeto;
  query : objeto
}.

(** [process.env]: [TOKEN_EXP_MIN] is a string when set; [env_numero] is
    the number [Number] reads from such a string (taken on the strings that
    denote an integer). *)
Record entorno : Type := Entorno {
  TOKEN_EXP_MIN : option string;
  env_numero : string -> Z
}.

(** [process.env.TOKEN_EXP_MIN || 15]: the string when set and not empty,
    else the number 15. *)
Definition exp_min_o_15 (e : entorno) : string + Z :=
  match TOKEN_EXP_MIN e with
  | Some (String a s) => inl (String a s)
  | Some EmptyString | None => inr 15
  end.

(** [Number(v)] for [v] a string or a number, as an integer. It is the
    number of the code on the settings of [configuracion_regular]; a text
    that is no number, a fraction or a number beyond the exact integers of
    binary64 is outside this model. *)
Definition Number (e : entorno) (v : string + Z) : Z :=
  match v with
  | inl s => env_numero e s
  | inr n => n
  end.

(** The three readings of the clock of a successful [/enviar-token]. *)
Record lecturas : Type := Lecturas {
  l_creado : Z;
  l_now : Z;
  l_timestamp : Z
}.

(** ** The operations *)

Definition responder (codigo : Z) (c : cuerpo) : respuesta :=
  {| status := codigo; json := c |}.

(** [tokensCounter.inc()] *)
Definition inc (w : mundo) : mundo :=
  {| tokensTemporales := tokensTemporales w;
     tokensCounter := tokensCounter w + 1;
     efectos := efectos w ++ [EInc] |}.

(** The call [transporter.sendMail(m)]; its promise settles later. *)
Definition sendMail (m : mensaje) (w : mundo) : mundo :=
  {| tokensTemporales := tokensTemporales w;
     tokensCounter := tokensCounter w;
     efectos := efectos w ++ [ESendMail m] |}.

(** [tokensTemporales.set(k, d)] *)
Definition set (k : jsval) (d : registro) (w : mundo) : mundo :=
  {| tokensTemporales := <[k := d]> (tokensTemporales w);
     tokensCounter := tokensCounter w;
     efectos := efectos w |}.

(** [tokensTemporales.delete(k)] *)
Definition borrar (k : jsval) (w : mundo) : mundo :=
  {| tokensTemporales := delete k (tokensTemporales w);
     tokensCounter := tokensCounter w;
     efectos := efectos w |}.

(** [ahora > data.expira] *)
Definition vencido (ahora : Z) (d : registro) : bool := expira d <? ahora.

(** What [/enviar-token] holds while it awaits [sendMail]. *)
Record pendiente : Type := Pendiente {
  p_correo : jsval;
  p_tipo : jsval;
  p_token : string
}.

(** [POST /enviar-token] up to its [await]: either it has answered, or it
    has called [sendMail] and waits. *)
Definition enviar_token_inicio (e : entorno) (randomBytes : nat -> list byte)
    (req : peticion) (w : mundo) : (respuesta + pendiente) * mundo :=
  let correo := prop (body req) "correo" in
  let tp := prop (body req) "tipo" in
  if negb (truthy correo) || negb (truthy tp) then
    (inl (responder 400 (CError "Faltan datos: correo o tipo")), w)
  else if negb (estricto_igual tp (JStr "registro"))
          && negb (estricto_igual tp (JStr "recuperacion")) then
    (inl (responder 400 (CError "Tipo debe ser 'registro' o 'recuperacion'")), w)
  else
    let tk := generarToken randomBytes in
    let w1 := inc w in
    let asunto : string :=
      if estricto_igual tp (JStr "recuperacion")
      then "🔑 Recupera tu cuenta" else "🪪 Verifica tu cuenta" in
    let h := {| h_subject := asunto; h_tipo := tp; h_token := tk;
                h_minutos := exp_min_o_15 e |} in
    let w2 := sendMail {| to := correo; subject := asunto; html := h |} w1 in
    (inr {| p_correo := correo; p_tipo := tp; p_token := tk |}, w2).

(** [POST /enviar-token] from the settling of [sendMail] on. The expiry
    date is computed in [Z]: it is the date of the code on
    [configuracion_regular]; on other settings the code can store an
    Invalid Date, which no reading of the clock is past. *)
Definition enviar_token_fin (e : entorno) (p : pendiente) (r : envio)
    (t : lecturas) (w : mundo) : respuesta * mundo :=
  match r with
  | Enviado messageId =>
      let w1 :=
        set (p_correo p)
          {| token := p_token p;
             tipo := p_tipo p;
             creado := l_creado t;
             expira := l_now t + Number e (exp_min_o_15 e) * 60000 |} w in
      (responder 200
         (CEnviado "Correo enviado correctamente" (p_token p) (p_tipo p)
            (l_timestamp t) messageId), w1)
  | Rechazado message =>
      (responder 500 (CErrorDetalle "No se pudo enviar el correo" message), w)
  end.

(** [POST /enviar-token] when nothing else runs during its [await]. *)
Definition enviar_token (e : entorno) (randomBytes : nat -> list byte)
    (req : peticion) (r : envio) (t : lecturas) (w : mundo) : respuesta * mundo :=
  match enviar_token_inicio e randomBytes req w with
  | (inl res, w1) => (res, w1)
  | (inr p, w1) => enviar_token_fin e p r t w1
  end.

(** [obtenerToken(correo, res)], [ahora] being its reading of the clock. *)
Definition obtenerToken (correo : jsval) (ahora : Z) (w : mundo) : respuesta * mundo :=
  match tokensTemporales w !! correo with
  | None =>
      (responder 404 (CMensaje "No se encontró token reciente para este correo"), w)
  | Some dataToken =>
      if vencido ahora dataToken then
        (responder 410 (CMensaje "El token ha expirado"), borrar correo w)
      else
        (responder 200
           (CToken "Token disponible" correo (token dataToken) (tipo dataToken)
              (creado dataToken) (expira dataToken)), w)
  end.

(** [POST /token-enviado] *)
Definition post_token_enviado (req : peticion) (ahora : Z) (w : mundo) : respuesta * mundo :=
  let correo := prop (body req) "correo" in
  if negb (truthy correo) then (responder 400 (CError "Falta el correo"), w)
  else obtenerToken correo ahora w.

(** [GET /token-enviado] *)
Definition get_token_enviado (req : peticion) (ahora : Z) (w : mundo) : respuesta * mundo :=
  let correo := prop (query req) "correo" in
  if negb (truthy correo) then (responder 400 (CError "Falta el correo"), w)
  else obtenerToken correo ahora w.

(** One run of the callback of [setInterval] in which no conversion of a
    key to a string throws: the loop over [tokensTemporales.entries()].
    [limpieza_temporizador] is the callback with that conversion. *)
Definition limpieza_paso (ahora : Z) (correo : jsval) (data : registro)
    (m : gmap jsval registro) : gmap jsval registro :=
  if vencido ahora data then delete correo m else m.

Definition limpieza (ahora : Z) (w : mundo) : mundo :=
  {| tokensTemporales :=
       map_fold (limpieza_paso ahora) (tokensTemporales w) (tokensTemporales w);
     tokensCounter := tokensCounter w;
     efectos := efectos w |}.

(** The lookups [obtenerToken(correo)] made one after the other at the
    readings [ts] of the clock. *)
Fixpoint consultas (correo : jsval) (ts : list Z) (w : mundo) : list respuesta * mundo :=
  match ts with
  | [] => ([], w)
  | t :: ts' =>
      let '(r, w1) := obtenerToken correo t w in
      let '(rs, w2) := consultas correo ts' w1 in
      (r :: rs, w2)
  end.

(** ** Vocabulary of the specification *)

(** The failures of the specification, read off the status of the answer. *)
Inductive fallo : Type :=
| ValidationError
| DeliveryError
| NotFoundError
| ExpiredError.

Definition fallo_de (r : respuesta) : option fallo :=
  if status r =? 400 then Some ValidationError
  else if status r =? 500 then Some DeliveryError
  else if status r =? 404 then Some NotFoundError
  else if status r =? 410 then Some ExpiredError
  else None.

(** The requests that pass the two guards of [/enviar-token]. *)
Definition aceptada (req : peticion) : Prop :=
  truthy (prop (body req) "correo") = true
  ∧ (prop (body req) "tipo" = JStr "registro"
     ∨ prop (body req) "tipo" = JStr "recuperacion").

(** The mail [/enviar-token] sends for an accepted request. *)
Definition mensaje_de (e : entorno) (req : peticion) (tk : string) : mensaje :=
  let tp := prop (body req) "tipo" in
  let asunto : string :=
    if estricto_igual tp (JStr "recuperacion")
    then "🔑 Recupera tu cuenta" else "🪪 Verifica tu cuenta" in
  {| to := prop (body req) "correo";
     subject := asunto;
     html := {| h_subject := asunto; h_tipo := tp; h_token := tk;
                h_minutos := exp_min_o_15 e |} |}.

(** The record a successful [/enviar-token] stores. *)
Definition registro_de (e : entorno) (req : peticion) (tk : string) (t : lecturas) : registro :=
  {| token := tk;
     tipo := prop (body req) "tipo";
     creado := l_creado t;
     expira := l_now t + Number e (exp_min_o_15 e) * 60000 |}.

(** The uninterrupted pieces of code that touch the state: the handlers
    between two [await]s and the callback of the timer. *)
Inductive paso (e : entorno) : mundo -> mundo -> Prop :=
| paso_enviar_inicio rb req w :
    paso e w (enviar_token_inicio e rb req w).2
| paso_enviar_fin p r t w :
    paso e w (enviar_token_fin e p r t w).2
| paso_post req ahora w :
    paso e w (post_token_enviado req ahora w).2
| paso_get req ahora w :
    paso e w (get_token_enviado req ahora w).2
| paso_limpieza ahora w :
    paso e w (limpieza ahora w).

(** The environment without [TOKEN_EXP_MIN]; [Number] is never asked. *)
Definition entorno_por_defecto : entorno :=
  {| TOKEN_EXP_MIN := None; env_numero := fun _ => 0 |}.

(** ** Sample inputs *)

(** Random bytes whose first base64 letter is [+]. *)
Definition azar_con_mas (n : nat) : list byte :=
  firstn n (xfb :: repeat x00 n).

(** Random bytes that give the token [ABCDEFGH]. *)
Definition azar_abc (n : nat) : list byte :=
  firstn n ([x00; x10; x83; x10; x51; x87] ++ repeat x00 n).

Definition peticion_ana : peticion :=
  {| body := {[ "correo"%string := JStr "ana@example.com";
                "tipo"%string := JStr "registro" ]};
     query := ∅ |}.

Definition peticion_ana_recuperacion : peticion :=
  {| body := {[ "correo"%string := JStr "ana@example.com";
                "tipo"%string := JStr "recuperacion" ]};
     query := ∅ |}.

Definition peticion_sin_tipo : peticion :=
  {| body := {[ "correo"%string := JStr "ana@example.com" ]}; query := ∅ |}.

Definition consulta_get_ana : peticion :=
  {| body := ∅; query := {[ "correo"%string := JStr "ana@example.com" ]} |}.

Definition mundo_inicial : mundo :=
  {| tokensTemporales := ∅; tokensCounter := 0; efectos := [] |}.

Definition lecturas_t0 : lecturas :=
  {| l_creado := 1000; l_now := 1000; l_timestamp := 1001 |}.

Definition lecturas_t1 : lecturas :=
  {| l_creado := 61000; l_now := 61000; l_timestamp := 61001 |}.

(** Whether a request passes the two guards can be computed. *)
#[global] Instance aceptada_dec req : Decision (aceptada req).
Proof. unfold aceptada. apply _. Defined.

(** ** The cross-origin policy *)

(** The array [allowedOrigins] of [corsOptions.origin]. *)
Definition allowedOrigins : list string :=
  [ "http://localhost:5500"; "http://4.157.178.241"; "http://localhost:3000";
    "http://localhost:5173"; "http://34.56.85.127"; "http://34.58.87.183";
    "http://localhost"; "http://127.0.0.1:5500"; "http://127.0.0.1:3000";
    "http://127.0.0.1:5173" ]%string.

(** What [corsOptions.origin] hands to its [callback]: [(null, true)] or
    an [Error]. *)
Inductive cors_callback : Type :=
| CorsPermitido
| CorsError (message : string).

(** [!s] for [s] a string or [undefined]. *)
Definition no_cadena (s : option string) : bool :=
  match s with
  | None | Some EmptyString => true
  | Some (String _ _) => false
  end.

(** [l.indexOf(x)], counted from [i]. *)
Fixpoint indexOf_desde (i : Z) (l : list string) (x : string) : Z :=
  match l with
  | [] => -1
  | y :: l' => if String.eqb y x then i else indexOf_desde (i + 1) l' x
  end.

Definition indexOf (l : list string) (x : option string) : Z :=
  match x with
  | Some s => indexOf_desde 0 l s
  | None => -1
  end.

(** [corsOptions.origin(origin, callback)]; [NODE_ENV] is
    [process.env.NODE_ENV], [origin] the header of the request. *)
Definition corsOptions_origin (NODE_ENV origin : option string) : cors_callback :=
  if no_cadena origin || bool_decide (NODE_ENV = Some "development"%string) then
    CorsPermitido
  else if negb (indexOf allowedOrigins origin =? -1) || no_cadena origin then
    CorsPermitido
  else CorsError "Origen no permitido por CORS".

(** ** The service with its requests in flight *)

(** The mails [/enviar-token] has handed to [sendMail] so far, oldest
    first. *)
Definition envios (w : mundo) : list mensaje :=
  omap (fun ef => match ef with ESendMail m => Some m | EInc => None end) (efectos w).

(** The state together with the [/enviar-token] requests that wait for
    their [sendMail]. *)
Record sistema : Type := Sistema {
  s_mundo : mundo;
  en_vuelo : list pendiente
}.

(** The service at start: [new Map()], a fresh counter, nothing sent. *)
Definition sistema_inicial : sistema :=
  {| s_mundo := mundo_inicial; en_vuelo := [] |}.

(** The uninterrupted pieces of code that touch the store or the counter,
    with the bookkeeping of the requests in flight: the second part of
    [/enviar-token] runs for a request whose first part has run, once. *)
Inductive paso_sistema (e : entorno) : sistema -> sistema -> Prop :=
| ps_inicio rb req s :
    paso_sistema e s
      {| s_mundo := (enviar_token_inicio e rb req (s_mundo s)).2;
         en_vuelo := match (enviar_token_inicio e rb req (s_mundo s)).1 with
                     | inl _ => en_vuelo s
                     | inr p => en_vuelo s ++ [p]
                     end |}
| ps_fin p r t w l1 l2 :
    paso_sistema e
      {| s_mundo := w; en_vuelo := l1 ++ p :: l2 |}
      {| s_mundo := (enviar_token_fin e p r t w).2; en_vuelo := l1 ++ l2 |}
| ps_post req ahora s :
    paso_sistema e s
      {| s_mundo := (post_token_enviado req ahora (s_mundo s)).2;
         en_vuelo := en_vuelo s |}
| ps_get req ahora s :
    paso_sistema e s
      {| s_mundo := (get_token_enviado req ahora (s_mundo s)).2;
         en_vuelo := en_vuelo s |}
| ps_limpieza ahora s :
    paso_sistema e s
      {| s_mundo := limpieza ahora (s_mundo s); en_vuelo := en_vuelo s |}.

(** A mail to [k] with the token [tk] for the purpose [tp] was handed to
    [sendMail]. *)
Definition enviado_a (w : mundo) (k : jsval) (tk : string) (tp : jsval) : Prop :=
  ∃ m, m ∈ envios w ∧ to m = k ∧ h_token (html m) = tk ∧ h_tipo (html m) = tp.

Definition tipo_valido (tp : jsval) : Prop :=
  tp = JStr "registro" ∨ tp = JStr "recuperacion".

Definition token_bien_formado (tk : string) : Prop :=
  (String.length tk <= 8)%nat
  ∧ Forall (fun c => es_alfanumerico c = true) (list_ascii_of_string tk).

(** A step that adds no record, changes none, and calls no collaborator. *)
Definition sin_altas (w w' : mundo) : Prop :=
  tokensTemporales w' ⊆ tokensTemporales w
  ∧ tokensCounter w' = tokensCounter w
  ∧ efectos w' = efectos w.

(** What holds of the service at any time (see [invariante_alcanzable]). *)
Definition invariante (s : sistema) : Prop :=
  tokensCounter (s_mundo s) = Z.of_nat (length (envios (s_mundo s)))
  ∧ (∀ p, p ∈ en_vuelo s ->
       truthy (p_correo p) = true ∧ tipo_valido (p_tipo p)
       ∧ token_bien_formado (p_token p)
       ∧ enviado_a (s_mundo s) (p_correo p) (p_token p) (p_tipo p))
  ∧ (∀ k d, tokensTemporales (s_mundo s) !! k = Some d ->
       truthy k = true ∧ tipo_valido (tipo d)
       ∧ token_bien_formado (token d)
       ∧ enviado_a (s_mundo s) k (token d) (tipo d))
  ∧ Z.of_nat (size (tokensTemporales (s_mundo s))) + Z.of_nat (length (en_vuelo s))
      <= tokensCounter (s_mundo s).

(** The record the second part of [/enviar-token] stores for [p]. *)
Definition registro_de_pendiente (e : entorno) (p : pendiente) (t : lecturas) : registro :=
  {| token := p_token p;
     tipo := p_tipo p;
     creado := l_creado t;
     expira := l_now t + Number e (exp_min_o_15 e) * 60000 |}.

(** The base64 letters that [\W] removes. *)
Definition es_mas_o_barra (c : ascii) : bool :=
  Ascii.eqb c "+" || Ascii.eqb c "/".

(** The pieces of code that run while the clock reads no more than
    [limite], except the storing of a new record under [correo]. *)
Inductive paso_hasta (e : entorno) (correo : jsval) (limite : Z) : mundo -> mundo -> Prop :=
| ph_inicio rb req w :
    paso_hasta e correo limite w (enviar_token_inicio e rb req w).2
| ph_fin_otro p r t w :
    p_correo p ≠ correo ->
    paso_hasta e correo limite w (enviar_token_fin e p r t w).2
| ph_fin_rechazado p message t w :
    paso_hasta e correo limite w (enviar_token_fin e p (Rechazado message) t w).2
| ph_post req ahora w :
    ahora <= limite ->
    paso_hasta e correo limite w (post_token_enviado req ahora w).2
| ph_get req ahora w :
    ahora <= limite ->
    paso_hasta e correo limite w (get_token_enviado req ahora w).2
| ph_limpieza ahora w :
    ahora <= limite ->
    paso_hasta e correo limite w (limpieza ahora w).

(** Six random bytes that give the token [ABCDEFGH], whatever is asked. *)
Definition azar_abc_fijo (n : nat) : list byte := [x00; x10; x83; x10; x51; x87].

(** ** Settings on which dates are integers *)

(** The largest time value of a [Date], and the bound under which the
    integers are binary64 numbers. *)
Definition limite_fecha : Z := 8640000000000000.

Definition limite_exacto : Z := 9007199254740992.

(** The number a string of decimal digits denotes. *)
Fixpoint digitos (s : string) (acc : Z) : option Z :=
  match s with
  | EmptyString => Some acc
  | String c r =>
      let n := Z.of_N (N_of_ascii c) in
      if (48 <=? n) && (n <=? 57) then digitos r (acc * 10 + (n - 48)) else None
  end.

Definition natural_decimal (s : string) : option Z :=
  match s with
  | EmptyString => None
  | String _ _ => digitos s 0
  end.

(** The integer a string denotes when it is an optional sign followed by
    decimal digits; on such a string [Number] gives that integer. *)
Definition entero_decimal (s : string) : option Z :=
  match s with
  | String "-" r => Z.opp <$> natural_decimal r
  | String "+" r => natural_decimal r
  | _ => natural_decimal s
  end.

(** The minutes that [process.env.TOKEN_EXP_MIN || 15] denotes, when it
    is an integer written in decimal digits. *)
Definition minutos_configurados (e : entorno) : option Z :=
  match exp_min_o_15 e with
  | inl s => entero_decimal s
  | inr n => Some n
  end.

(** The settings and readings of the clock on which the expiry date of
    the model is the one of the code: the setting denotes the integer [n],
    which [env_numero] reads as [Number] does, the readings are time
    values, the product by 60000 and the sum with [Date.now()] are exact in
    binary64, and the sum is a time value, so that [new Date] of it is no
    Invalid Date. *)
Definition configuracion_regular (e : entorno) (t : lecturas) (n : Z) : Prop :=
  minutos_configurados e = Some n
  ∧ Number e (exp_min_o_15 e) = n
  ∧ - limite_exacto <= n * 60000 <= limite_exacto
  ∧ - limite_fecha <= l_creado t <= limite_fecha
  ∧ - limite_fecha <= l_now t <= limite_fecha
  ∧ - limite_fecha <= l_timestamp t <= limite_fecha
  ∧ - limite_fecha <= l_now t + n * 60000 <= limite_fecha.

(** ** The callback of the timer, with its string conversion *)

(** Whether the conversion to a string made by a template literal throws:
    never for a primitive value; for an object it depends on the object
    ([objetos], by reference: an object whose [toString] and [valueOf] give
    no primitive value throws a [TypeError]). *)
Definition a_cadena_lanza (objetos : positive -> bool) (v : jsval) : bool :=
  match v with
  | JRef r => objetos r
  | _ => false
  end.

(** The loop of the callback over the entries of the [Map], whose keys
    come in the order [orden] (the order of insertion, which the store of
    the model does not keep). For an expired entry the key is converted to
    a string for [console.log] and the entry is deleted; the result says
    whether the conversion threw, and gives the store at that point. *)
Fixpoint limpieza_bucle (objetos : positive -> bool) (ahora : Z) (orden : list jsval)
    (m : gmap jsval registro) : gmap jsval registro * bool :=
  match orden with
  | [] => (m, false)
  | correo :: resto =>
      match m !! correo with
      | None => limpieza_bucle objetos ahora resto m
      | Some data =>
          if vencido ahora data then
            if a_cadena_lanza objetos correo then (m, true)
            else limpieza_bucle objetos ahora resto (delete correo m)
          else limpieza_bucle objetos ahora resto m
      end
  end.

(** How a run of the callback ends: normally, or with the [TypeError] of
    the conversion, which nothing catches. *)
Inductive resultado_limpieza : Type :=
| Termina (w : mundo)
| Lanza (w : mundo).

(** One run of the callback of [setInterval]. *)
Definition limpieza_temporizador (objetos : positive -> bool) (orden : list jsval)
    (ahora : Z) (w : mundo) : resultado_limpieza :=
  let w' m := {| tokensTemporales := m;
                 tokensCounter := tokensCounter w;
                 efectos := efectos w |} in
  match limpieza_bucle objetos ahora orden (tokensTemporales w) with
  | (m, true) => Lanza (w' m)
  | (m, false) => Termina (w' m)
  end.

(** [orden] lists the keys of [m], each once. *)
Definition enumera (orden : list jsval) (m : gmap jsval registro) : Prop :=
  NoDup orden ∧ ∀ k, k ∈ orden <-> is_Some (m !! k).

(** No key of [m] throws when converted to a string. *)
Definition claves_convertibles (objetos : positive -> bool) (m : gmap jsval registro) : Prop :=
  ∀ k, is_Some (m !! k) -> a_cadena_lanza objetos k = false.

(** A request whose [correo] is an object, and the objects of which only
    the one of reference 1 throws when converted to a string, as
    [{"address": "ana@example.com", "toString": 1}] does. *)
Definition peticion_objeto : peticion :=
  {| body := {[ "correo"%string := JRef 1; "tipo"%string := JStr "registro" ]};
     query := ∅ |}.

Definition objetos_uno (r : positive) : bool := Pos.eqb r 1.

(** ** The token generator: results *)

Module Base64Facts.
Import Base64.

Lemma sexteto_rango (n k : Z) : 0 <= sexteto n k < 64.
Proof.
  unfold sexteto. change 63 with (Z.ones 6).
  rewrite Z.land_ones by lia. apply Z.mod_pos_bound. lia.
Qed.

Lemma letra_palabra (i : Z) :
  0 <= i < 64 -> es_palabra (letra i) = es_alfanumerico (letra i).
Proof.
  intros Hi.
  assert (Htodas :
    forallb (fun n : nat =>
      Bool.eqb (es_palabra (letra (Z.of_nat n))) (es_alfanumerico (letra (Z.of_nat n))))
      (seq 0 64) = true) by (vm_compute; reflexivity).
  rewrite forallb_forall in Htodas.
  specialize (Htodas (Z.to_nat i)).
  rewrite Z2Nat.id in Htodas by lia.
  apply Bool.eqb_prop, Htodas, in_seq. lia.
Qed.

Lemma tres_en_tres (P : list byte -> Prop) :
  P [] ->
  (forall a, P [a]) ->
  (forall a b, P [a; b]) ->
  (forall a b c l, P l -> P (a :: b :: c :: l)) ->
  forall l, P l.
Proof.
  intros H0 H1 H2 H3 l.
  assert (Hgen : P l ∧ (forall a, P (a :: l)) ∧ (forall a b, P (a :: b :: l))).
  { induction l as [|c l (IHa & IHb & IHc)]; [by auto|].
    split; [apply IHb|]. split; [intros a; apply IHc|]. intros a b. by apply H3. }
  apply Hgen.
Qed.

Lemma letra_limpia_sexteto (n k : Z) : letra_limpia (letra (sexteto n k)).
Proof. intros H. by rewrite <- letra_palabra by apply sexteto_rango. Qed.

Lemma codificar_limpia (bs : list byte) : Forall letra_limpia (codificar bs).
Proof.
  induction bs as [|a|a b|a b c l IH] using tres_en_tres; simpl.
  - constructor.
  - repeat (constructor; [first [apply letra_limpia_sexteto | by intros ?]|]). constructor.
  - repeat (constructor; [first [apply letra_limpia_sexteto | by intros ?]|]). constructor.
  - repeat (constructor; [apply letra_limpia_sexteto|]). exact IH.
Qed.

Lemma codificar_longitud_6 (bs : list byte) :
  length bs = 6%nat -> length (codificar bs) = 8%nat.
Proof.
  intros H. do 7 (destruct bs as [|? bs]; simpl in H; try lia). reflexivity.
Qed.

End Base64Facts.

Lemma string_of_list_ascii_longitud (l : list ascii) :
  String.length (string_of_list_ascii l) = length l.
Proof. induction l as [|c l IH]; simpl; [done | by rewrite IH]. Qed.

Lemma list_ascii_of_string_of_list (l : list ascii) :
  list_ascii_of_string (string_of_list_ascii l) = l.
Proof. induction l as [|c l IH]; simpl; [done | by rewrite IH]. Qed.

Example generarToken_abc : generarToken azar_abc = "ABCDEFGH"%string.
Proof. reflexivity. Qed.

Example codificar_relleno :
  string_of_list_ascii (Base64.codificar [x4d; x61]) = "TWE="%string
  ∧ string_of_list_ascii (Base64.codificar [x4d]) = "TQ=="%string
  ∧ string_of_list_ascii (Base64.codificar [x4d; x61; x6e]) = "TWFu"%string.
Proof. repeat split. Qed.

Example es_palabra_ej :
  es_palabra "_" = true ∧ es_palabra "+" = false ∧ es_palabra "/" = false
  ∧ es_palabra "=" = false ∧ es_palabra "z" = true ∧ es_palabra "0" = true.
Proof. repeat split. Qed.

(** Whatever the random bytes, the token has at most eight characters,
    all of them letters or digits. *)
Lemma generarToken_alfanumerico (randomBytes : nat -> list byte) :
  (String.length (generarToken randomBytes) <= 8)%nat
  ∧ Forall (fun c => es_alfanumerico c = true)
      (list_ascii_of_string (generarToken randomBytes)).
Proof.
  unfold generarToken, substring0, quitar_no_palabra. split.
  - rewrite string_of_list_ascii_longitud. apply firstn_le_length.
  - rewrite list_ascii_of_string_of_list.
    apply Forall_take, Forall_forall. intros c Hc.
    apply list_elem_of_In, filter_In in Hc as [Hin Hw].
    pose proof (Base64Facts.codificar_limpia (randomBytes 6%nat)) as HF.
    rewrite Forall_forall in HF. apply HF; [by apply list_elem_of_In | done].
Qed.

(** With six random bytes the token is what [\W] leaves of the eight
    base64 letters: its length is the number of letters, digits and
    underscores among them. *)
Lemma generarToken_longitud (randomBytes : nat -> list byte) :
  length (randomBytes 6%nat) = 6%nat ->
  String.length (generarToken randomBytes) =
    length (quitar_no_palabra (Base64.codificar (randomBytes 6%nat))).
Proof.
  intros H6. unfold generarToken, substring0.
  rewrite string_of_list_ascii_longitud, firstn_all2; [done|].
  unfold quitar_no_palabra.
  rewrite <- (Base64Facts.codificar_longitud_6 _ H6). apply filter_length_le.
Qed.

(** ** The handlers: basic facts *)

Lemma enviar_token_inicio_aceptada e rb req w :
  aceptada req ->
  enviar_token_inicio e rb req w =
    (inr {| p_correo := prop (body req) "correo";
            p_tipo := prop (body req) "tipo";
            p_token := generarToken rb |},
     sendMail (mensaje_de e req (generarToken rb)) (inc w)).
Proof.
  intros [Hc Ht]. unfold enviar_token_inicio, mensaje_de. rewrite Hc.
  destruct Ht as [Ht | Ht]; rewrite Ht; reflexivity.
Qed.

Lemma enviar_token_inicio_no_aceptada e rb req w :
  ¬ aceptada req ->
  ∃ m, enviar_token_inicio e rb req w = (inl (responder 400 (CError m)), w).
Proof.
  intros Hno. unfold enviar_token_inicio.
  destruct (truthy (prop (body req) "correo")) eqn:Hc; simpl; [|by eauto].
  destruct (truthy (prop (body req) "tipo")) eqn:Ht; simpl; [|by eauto].
  unfold estricto_igual.
  destruct (bool_decide (prop (body req) "tipo" = JStr "registro")) eqn:H1; simpl.
  { apply bool_decide_eq_true in H1. exfalso. apply Hno. split; auto. }
  destruct (bool_decide (prop (body req) "tipo" = JStr "recuperacion")) eqn:H2; simpl.
  { apply bool_decide_eq_true in H2. exfalso. apply Hno. split; auto. }
  eauto.
Qed.

Lemma enviar_token_enviado e rb req messageId t w :
  aceptada req ->
  enviar_token e rb req (Enviado messageId) t w =
    (responder 200
       (CEnviado "Correo enviado correctamente" (generarToken rb)
          (prop (body req) "tipo") (l_timestamp t) messageId),
     set (prop (body req) "correo") (registro_de e req (generarToken rb) t)
       (sendMail (mensaje_de e req (generarToken rb)) (inc w))).
Proof.
  intros Hok. unfold enviar_token.
  by rewrite (enviar_token_inicio_aceptada e rb req w Hok).
Qed.

Lemma enviar_token_rechazado e rb req message t w :
  aceptada req ->
  enviar_token e rb req (Rechazado message) t w =
    (responder 500 (CErrorDetalle "No se pudo enviar el correo" message),
     sendMail (mensaje_de e req (generarToken rb)) (inc w)).
Proof.
  intros Hok. unfold enviar_token.
  by rewrite (enviar_token_inicio_aceptada e rb req w Hok).
Qed.

Lemma obtenerToken_ausente correo ahora w :
  tokensTemporales w !! correo = None ->
  obtenerToken correo ahora w =
    (responder 404 (CMensaje "No se encontró token reciente para este correo"), w).
Proof. intros H. unfold obtenerToken. by rewrite H. Qed.

Lemma obtenerToken_vigente correo d ahora w :
  tokensTemporales w !! correo = Some d ->
  ahora <= expira d ->
  obtenerToken correo ahora w =
    (responder 200
       (CToken "Token disponible" correo (token d) (tipo d) (creado d) (expira d)), w).
Proof.
  intros H Hle. unfold obtenerToken, vencido. rewrite H.
  destruct (Z.ltb_spec (expira d) ahora); [lia | done].
Qed.

Lemma obtenerToken_vencido correo d ahora w :
  tokensTemporales w !! correo = Some d ->
  expira d < ahora ->
  obtenerToken correo ahora w =
    (responder 410 (CMensaje "El token ha expirado"), borrar correo w).
Proof.
  intros H Hlt. unfold obtenerToken, vencido. rewrite H.
  destruct (Z.ltb_spec (expira d) ahora); [done | lia].
Qed.

Lemma consultas_vigente correo d ts w :
  tokensTemporales w !! correo = Some d ->
  Forall (fun ahora => ahora <= expira d) ts ->
  consultas correo ts w =
    (replicate (length ts)
       (responder 200
          (CToken "Token disponible" correo (token d) (tipo d) (creado d) (expira d))),
     w).
Proof.
  intros H Hts. induction Hts as [|ahora ts Hle _ IH]; simpl; [done|].
  by rewrite (obtenerToken_vigente correo d ahora w H Hle), IH.
Qed.

Lemma limpieza_lookup ahora w correo :
  tokensTemporales (limpieza ahora w) !! correo =
    match tokensTemporales w !! correo with
    | Some d => if vencido ahora d then None else Some d
    | None => None
    end.
Proof.
  unfold limpieza; simpl.
  set (m0 := tokensTemporales w).
  pose (P := λ (r m : gmap jsval registro), ∀ k,
       r !! k = match m !! k with
                | Some d => if vencido ahora d then None else m0 !! k
                | None => m0 !! k
                end).
  assert (Hgen : ∀ m : gmap jsval registro,
             P (map_fold (limpieza_paso ahora) m0 m) m).
  { apply (map_fold_weak_ind P); unfold P.
    - intros k. by rewrite lookup_empty.
    - intros i x m r Hi IH k. unfold limpieza_paso.
      destruct (decide (k = i)) as [->|Hne].
      + rewrite lookup_insert_eq. destruct (vencido ahora x).
        * by rewrite lookup_delete_eq.
        * by rewrite IH, Hi.
      + rewrite lookup_insert_ne by done. destruct (vencido ahora x).
        * rewrite lookup_delete_ne by done. apply IH.
        * apply IH. }
  unfold P in Hgen. rewrite (Hgen m0 correo).
  by destruct (m0 !! correo) as [d|] eqn:Hd; [rewrite ?Hd|].
Qed.

Lemma paso_contador e w w' : paso e w w' -> tokensCounter w <= tokensCounter w'.
Proof.
  intros [rb req w0 | p r t w0 | req ahora w0 | req ahora w0 | ahora w0].
  - unfold enviar_token_inicio.
    repeat (match goal with |- context [if ?b then _ else _] => destruct b end);
      simpl; lia.
  - destruct r; simpl; lia.
  - unfold post_token_enviado, obtenerToken.
    repeat (match goal with
            | |- context [if ?b then _ else _] => destruct b
            | |- context [match ?o with Some _ => _ | None => _ end] => destruct o
            end); simpl; lia.
  - unfold get_token_enviado, obtenerToken.
    repeat (match goal with
            | |- context [if ?b then _ else _] => destruct b
            | |- context [match ?o with Some _ => _ | None => _ end] => destruct o
            end); simpl; lia.
  - simpl. lia.
Qed.

Lemma ejecucion_contador e w w' :
  rtc (paso e) w w' -> tokensCounter w <= tokensCounter w'.
Proof.
  induction 1 as [|w1 w2 w3 Hp _ IH]; [lia|].
  apply paso_contador in Hp. lia.
Qed.

(** ** The claims *)

(** C1. For an accepted address and purpose, under a setting of [n]
    minutes for which the expiry date is a date ([configuracion_regular]),
    a successful issuance answers with a token [tk] and leaves a state in
    which every lookup for that address made no later than the expiry,
    [n] minutes after the reading of [Date.now()], answers 200 with the
    same full record (token [tk], purpose, creation and expiry dates),
    however many times it is repeated, and leaves the state as it was. *)
Theorem C1_emitir_luego_consultar e rb req messageId t n w ts :
  aceptada req ->
  configuracion_regular e t n ->
  Forall (fun ahora => ahora <= l_now t + n * 60000) ts ->
  ∃ tk w1,
    enviar_token e rb req (Enviado messageId) t w =
      (responder 200
         (CEnviado "Correo enviado correctamente" tk (prop (body req) "tipo")
            (l_timestamp t) messageId), w1)
    ∧ consultas (prop (body req) "correo") ts w1 =
        (replicate (length ts)
           (responder 200
              (CToken "Token disponible" (prop (body req) "correo") tk
                 (prop (body req) "tipo") (l_creado t)
                 (l_now t + n * 60000))),
         w1).
Proof.
  intros Hok (_ & Hn & _) Hts. eexists _, _. split.
  - by apply enviar_token_enviado.
  - rewrite <- Hn in *.
    apply (consultas_vigente _ (registro_de e req (generarToken rb) t)); [|done].
    simpl. apply lookup_insert_eq.
Qed.

Lemma C1_emitir_luego_consultar_witness :
  ∃ tk w1,
    enviar_token entorno_por_defecto azar_abc peticion_ana (Enviado "m-1") lecturas_t0
      mundo_inicial =
      (responder 200
         (CEnviado "Correo enviado correctamente" tk (JStr "registro") 1001 "m-1"), w1)
    ∧ consultas (JStr "ana@example.com") [1000; 500000; 901000] w1 =
        (replicate 3
           (responder 200
              (CToken "Token disponible" (JStr "ana@example.com") tk
                 (JStr "registro") 1000 901000)),
         w1).
Proof.
  apply (C1_emitir_luego_consultar entorno_por_defecto azar_abc peticion_ana
           "m-1" lecturas_t0 15 mundo_inicial [1000; 500000; 901000]).
  - split; [vm_compute; reflexivity | left; vm_compute; reflexivity].
  - unfold configuracion_regular. repeat split; vm_compute; discriminate.
  - repeat constructor; vm_compute; discriminate.
Defined.

(** C2. For a stored record, [vencido] holds exactly when the clock is
    strictly past [expira]. A lookup made then answers 410 (ExpiredError)
    and deletes the record, so that every later lookup answers 404 without
    any clean-up having run; a lookup made at or before [expira] answers 200
    with the record. With the default of 15 minutes and the expiry counted
    from [t0], the lookup at [t0 + 14m59s] succeeds and the one at
    [t0 + 15m01s] fails as expired and removes the record. *)
Theorem C2_expiracion correo d ahora w :
  tokensTemporales w !! correo = Some d ->
  (vencido ahora d = true <-> expira d < ahora)
  ∧ (expira d < ahora ->
       obtenerToken correo ahora w =
         (responder 410 (CMensaje "El token ha expirado"), borrar correo w)
       ∧ fallo_de (obtenerToken correo ahora w).1 = Some ExpiredError
       ∧ tokensTemporales (obtenerToken correo ahora w).2 !! correo = None
       ∧ ∀ ahora',
           fallo_de (obtenerToken correo ahora' (obtenerToken correo ahora w).2).1
             = Some NotFoundError)
  ∧ (ahora <= expira d ->
       obtenerToken correo ahora w =
         (responder 200
            (CToken "Token disponible" correo (token d) (tipo d) (creado d) (expira d)),
          w))
  ∧ (∀ e t0,
       TOKEN_EXP_MIN e = None ->
       expira d = t0 + Number e (exp_min_o_15 e) * 60000 ->
       status (obtenerToken correo (t0 + 899000) w).1 = 200
       ∧ (obtenerToken correo (t0 + 899000) w).2 = w
       ∧ fallo_de (obtenerToken correo (t0 + 901000) w).1 = Some ExpiredError
       ∧ tokensTemporales (obtenerToken correo (t0 + 901000) w).2 !! correo = None).
Proof.
  intros Hd. split; [apply Z.ltb_lt|]. split; [|split].
  - intros Hlt. rewrite (obtenerToken_vencido correo d ahora w Hd Hlt). simpl.
    split; [done|]. split; [done|]. split; [apply lookup_delete_eq|].
    intros ahora'. rewrite obtenerToken_ausente; [done|]. apply lookup_delete_eq.
  - by apply obtenerToken_vigente.
  - intros e t0 He Hexp. unfold exp_min_o_15 in Hexp. rewrite He in Hexp. simpl in Hexp.
    rewrite (obtenerToken_vigente correo d (t0 + 899000) w Hd) by lia.
    rewrite (obtenerToken_vencido correo d (t0 + 901000) w Hd) by lia.
    simpl. repeat split. apply lookup_delete_eq.
Qed.

Lemma C2_expiracion_witness :
  fallo_de
    (obtenerToken (JStr "ana@example.com") 901001
       (enviar_token entorno_por_defecto azar_abc peticion_ana (Enviado "m-1")
          lecturas_t0 mundo_inicial).2).1
  = Some ExpiredError.
Proof.
  pose proof (C2_expiracion (JStr "ana@example.com")
                (registro_de entorno_por_defecto peticion_ana "ABCDEFGH" lecturas_t0)
                901001
                (enviar_token entorno_por_defecto azar_abc peticion_ana (Enviado "m-1")
                   lecturas_t0 mundo_inicial).2) as H.
  destruct H as (_ & Hexp & _); [vm_compute; reflexivity|].
  apply Hexp. vm_compute. reflexivity.
Defined.

(** C3. When [sendMail] rejects, [/enviar-token] answers 500
    (DeliveryError) with the message of the rejection as [detalle] and
    stores nothing: the store is the one from before the call, and the part
    of the handler that runs after the rejection changes nothing at all.
    If the address had no record, a lookup afterwards answers 404. *)
Theorem C3_envio_fallido e rb req message t w :
  aceptada req ->
  ∃ w1,
    enviar_token e rb req (Rechazado message) t w =
      (responder 500 (CErrorDetalle "No se pudo enviar el correo" message), w1)
    ∧ fallo_de (enviar_token e rb req (Rechazado message) t w).1 = Some DeliveryError
    ∧ tokensTemporales w1 = tokensTemporales w
    ∧ (∀ p w', (enviar_token_fin e p (Rechazado message) t w').2 = w')
    ∧ (tokensTemporales w !! prop (body req) "correo" = None ->
       ∀ ahora,
         obtenerToken (prop (body req) "correo") ahora w1 =
           (responder 404 (CMensaje "No se encontró token reciente para este correo"), w1)
         ∧ fallo_de (obtenerToken (prop (body req) "correo") ahora w1).1
             = Some NotFoundError).
Proof.
  intros Hok. eexists. rewrite (enviar_token_rechazado e rb req message t w Hok).
  split; [reflexivity|]. split; [reflexivity|]. split; [reflexivity|].
  split; [reflexivity|]. intros Hnone ahora.
  rewrite obtenerToken_ausente; [done|]. exact Hnone.
Qed.

Lemma C3_envio_fallido_witness :
  ∃ w1,
    enviar_token entorno_por_defecto azar_abc peticion_ana (Rechazado "ECONNREFUSED")
      lecturas_t0 mundo_inicial =
      (responder 500 (CErrorDetalle "No se pudo enviar el correo" "ECONNREFUSED"), w1)
    ∧ tokensTemporales w1 = ∅
    ∧ tokensCounter w1 = 1.
Proof.
  destruct (C3_envio_fallido entorno_por_defecto azar_abc peticion_ana "ECONNREFUSED"
              lecturas_t0 mundo_inicial) as (w1 & Hr & _ & Hs & _).
  - split; [vm_compute; reflexivity | left; vm_compute; reflexivity].
  - exists w1. split; [exact Hr|]. split; [exact Hs|].
    apply (f_equal snd) in Hr. simpl in Hr. subst w1. vm_compute. reflexivity.
Defined.

(** C4. When [correo] or [tipo] is missing from the body, or [tipo] is
    neither ["registro"] nor ["recuperacion"], [/enviar-token] answers 400
    (ValidationError) at once and the whole state is as before: no call to
    [sendMail], no record stored, the counter not incremented. *)
Theorem C4_validacion e rb req r t w :
  body req !! "correo" = None
  ∨ body req !! "tipo" = None
  ∨ (prop (body req) "tipo" ≠ JStr "registro"
     ∧ prop (body req) "tipo" ≠ JStr "recuperacion") ->
  ∃ m,
    enviar_token_inicio e rb req w = (inl (responder 400 (CError m)), w)
    ∧ enviar_token e rb req r t w = (responder 400 (CError m), w)
    ∧ fallo_de (enviar_token e rb req r t w).1 = Some ValidationError
    ∧ efectos (enviar_token e rb req r t w).2 = efectos w
    ∧ tokensTemporales (enviar_token e rb req r t w).2 = tokensTemporales w
    ∧ tokensCounter (enviar_token e rb req r t w).2 = tokensCounter w.
Proof.
  intros Hmal.
  assert (Hno : ¬ aceptada req).
  { intros [Hc Ht]. unfold prop in *.
    destruct Hmal as [Hm | [Hm | [H1 H2]]].
    - rewrite Hm in Hc. discriminate.
    - rewrite Hm in Ht. destruct Ht; discriminate.
    - destruct Ht; contradiction. }
  destruct (enviar_token_inicio_no_aceptada e rb req w Hno) as [m Hm].
  exists m. unfold enviar_token. rewrite Hm. by repeat split.
Qed.

Lemma C4_validacion_witness :
  ∃ m,
    enviar_token entorno_por_defecto azar_abc peticion_sin_tipo (Enviado "m-1")
      lecturas_t0 mundo_inicial = (responder 400 (CError m), mundo_inicial).
Proof.
  destruct (C4_validacion entorno_por_defecto azar_abc peticion_sin_tipo (Enviado "m-1")
              lecturas_t0 mundo_inicial) as (m & _ & Hr & _).
  - right; left. vm_compute. reflexivity.
  - exists m. exact Hr.
Defined.

(** C5. The store is a map, so an address has at most one record in it at
    any time. A successful issuance puts its record under the address
    whatever was there: after two successful issuances for one address, the
    second under a setting of [n] minutes for which its expiry date is a
    date ([configuracion_regular]), the record of the address is the second
    one, a lookup no later than its expiry answers with the second token,
    and a later lookup answers 410; the first record is gone whether or not
    it had expired. *)
Theorem C5_un_registro_por_correo e rb1 rb2 req1 req2 id1 id2 t1 t2 n w :
  aceptada req1 ->
  aceptada req2 ->
  prop (body req1) "correo" = prop (body req2) "correo" ->
  configuracion_regular e t2 n ->
  ∃ w1 w2 r1,
    enviar_token e rb1 req1 (Enviado id1) t1 w = (r1, w1)
    ∧ enviar_token e rb2 req2 (Enviado id2) t2 w1 =
        (responder 200
           (CEnviado "Correo enviado correctamente" (generarToken rb2)
              (prop (body req2) "tipo") (l_timestamp t2) id2), w2)
    ∧ tokensTemporales w2 !! prop (body req1) "correo"
        = Some (Registro (generarToken rb2) (prop (body req2) "tipo") (l_creado t2)
                  (l_now t2 + n * 60000))
    ∧ (∀ ahora,
         ahora <= l_now t2 + n * 60000 ->
         obtenerToken (prop (body req1) "correo") ahora w2 =
           (responder 200
              (CToken "Token disponible" (prop (body req1) "correo") (generarToken rb2)
                 (prop (body req2) "tipo") (l_creado t2) (l_now t2 + n * 60000)), w2))
    ∧ (∀ ahora,
         l_now t2 + n * 60000 < ahora ->
         fallo_de (obtenerToken (prop (body req1) "correo") ahora w2).1
           = Some ExpiredError)
    ∧ (∀ (w' : mundo) k da db,
         (k, da) ∈ map_to_list (tokensTemporales w') ->
         (k, db) ∈ map_to_list (tokensTemporales w') ->
         da = db).
Proof.
  intros Hok1 Hok2 Heq (_ & Hn & _). eexists _, _, _.
  split; [by apply enviar_token_enviado|].
  split; [by apply enviar_token_enviado|].
  assert (Hd : tokensTemporales
                 (set (prop (body req2) "correo") (registro_de e req2 (generarToken rb2) t2)
                    (sendMail (mensaje_de e req2 (generarToken rb2))
                       (inc (set (prop (body req1) "correo")
                               (registro_de e req1 (generarToken rb1) t1)
                               (sendMail (mensaje_de e req1 (generarToken rb1)) (inc w))))))
                 !! prop (body req1) "correo"
               = Some (Registro (generarToken rb2) (prop (body req2) "tipo") (l_creado t2)
                         (l_now t2 + n * 60000))).
  { rewrite Heq. simpl. rewrite lookup_insert_eq. unfold registro_de. by rewrite Hn. }
  split; [exact Hd|]. split; [|split].
  - intros ahora Hle. by rewrite (obtenerToken_vigente _ _ ahora _ Hd Hle).
  - intros ahora Hlt. by rewrite (obtenerToken_vencido _ _ ahora _ Hd Hlt).
  - intros w' k da db Ha Hb.
    apply elem_of_map_to_list in Ha, Hb. congruence.
Qed.

Lemma C5_un_registro_por_correo_witness :
  ∃ w2,
    (enviar_token entorno_por_defecto azar_con_mas peticion_ana_recuperacion
       (Enviado "m-2") lecturas_t1
       (enviar_token entorno_por_defecto azar_abc peticion_ana (Enviado "m-1")
          lecturas_t0 mundo_inicial).2).2 = w2
    ∧ (obtenerToken (JStr "ana@example.com") 62000 w2).1 =
        responder 200
          (CToken "Token disponible" (JStr "ana@example.com") "wAAAAAA"
             (JStr "recuperacion") 61000 961000).
Proof.
  destruct (C5_un_registro_por_correo entorno_por_defecto azar_abc azar_con_mas
              peticion_ana peticion_ana_recuperacion "m-1" "m-2" lecturas_t0 lecturas_t1
              15 mundo_inicial) as (w1 & w2 & r1 & H1 & H2 & _ & Hv & _).
  - split; [vm_compute; reflexivity | left; vm_compute; reflexivity].
  - split; [vm_compute; reflexivity | right; vm_compute; reflexivity].
  - vm_compute. reflexivity.
  - unfold configuracion_regular. repeat split; vm_compute; discriminate.
  - exists w2. apply (f_equal snd) in H1. simpl in H1. subst w1.
    apply (f_equal snd) in H2. simpl in H2. split; [exact H2|].
    assert (Hle : 62000 <= l_now lecturas_t1 + 15 * 60000)
      by (vm_compute; discriminate).
    exact (f_equal fst (Hv 62000 Hle)).
Defined.

(** C6. The generator is total and its token holds letters and digits
    only, but its length is not always 8: for the six random bytes
    [fb 00 00 00 00 00] the base64 text is [+wAAAAAA], the [+] is removed
    and the token [wAAAAAA] has 7 characters. *)
Theorem C6_generarToken_corto :
  length (azar_con_mas 6) = 6%nat
  ∧ string_of_list_ascii (Base64.codificar (azar_con_mas 6)) = "+wAAAAAA"%string
  ∧ generarToken azar_con_mas = "wAAAAAA"%string
  ∧ String.length (generarToken azar_con_mas) = 7%nat
  ∧ Forall (fun c => es_alfanumerico c = true)
      (list_ascii_of_string (generarToken azar_con_mas)).
Proof.
  split; [reflexivity|]. split; [reflexivity|]. split; [reflexivity|].
  split; [reflexivity|]. apply generarToken_alfanumerico.
Qed.

(** C7. For an accepted request, the part of [/enviar-token] that runs
    before the [await] increments the counter by one and then calls
    [sendMail], in that order; the whole call leaves the counter one higher
    whatever [sendMail] settles to, also when it rejects and the store is
    left as it was. Along any execution of the service the counter never
    decreases. *)
Theorem C7_contador e rb req r t w :
  aceptada req ->
  (∃ p, enviar_token_inicio e rb req w =
          (inr p, sendMail (mensaje_de e req (generarToken rb)) (inc w)))
  ∧ efectos (enviar_token_inicio e rb req w).2 =
      efectos w ++ [EInc; ESendMail (mensaje_de e req (generarToken rb))]
  ∧ tokensCounter (enviar_token_inicio e rb req w).2 = tokensCounter w + 1
  ∧ tokensCounter (enviar_token e rb req r t w).2 = tokensCounter w + 1
  ∧ (∀ message,
       tokensCounter (enviar_token e rb req (Rechazado message) t w).2
         = tokensCounter w + 1
       ∧ tokensTemporales (enviar_token e rb req (Rechazado message) t w).2
         = tokensTemporales w)
  ∧ (∀ w', rtc (paso e) w w' -> tokensCounter w <= tokensCounter w').
Proof.
  intros Hok. rewrite (enviar_token_inicio_aceptada e rb req w Hok).
  split; [by eexists|]. split; [simpl; by rewrite <- app_assoc|].
  split; [done|]. split; [|split].
  - destruct r.
    + by rewrite (enviar_token_enviado e rb req _ t w Hok).
    + by rewrite (enviar_token_rechazado e rb req _ t w Hok).
  - intros message. by rewrite (enviar_token_rechazado e rb req _ t w Hok).
  - intros w'. apply ejecucion_contador.
Qed.

Lemma C7_contador_witness :
  tokensCounter
    (enviar_token entorno_por_defecto azar_abc peticion_ana (Rechazado "ECONNREFUSED")
       lecturas_t0 mundo_inicial).2 = 1
  ∧ tokensTemporales
      (enviar_token entorno_por_defecto azar_abc peticion_ana (Rechazado "ECONNREFUSED")
         lecturas_t0 mundo_inicial).2 = ∅.
Proof.
  destruct (C7_contador entorno_por_defecto azar_abc peticion_ana
              (Rechazado "ECONNREFUSED") lecturas_t0 mundo_inicial)
    as (_ & _ & _ & _ & Hr & _).
  - split; [vm_compute; reflexivity | left; vm_compute; reflexivity].
  - exact (Hr "ECONNREFUSED"%string).
Defined.

(** A run of the clean-up in which no conversion throws: afterwards an
    address has a record exactly when it had one that was not expired
    ([ahora > expira] false), and that record is the same. The counter and
    the calls made are untouched. *)
Lemma limpieza_filtra ahora w :
  (∀ correo,
     tokensTemporales (limpieza ahora w) !! correo =
       match tokensTemporales w !! correo with
       | Some d => if expira d <? ahora then None else Some d
       | None => None
       end)
  ∧ tokensTemporales (limpieza ahora w) =
      filter (λ kd : jsval * registro, ¬ (expira kd.2 < ahora)) (tokensTemporales w)
  ∧ tokensCounter (limpieza ahora w) = tokensCounter w
  ∧ efectos (limpieza ahora w) = efectos w.
Proof.
  split; [intros correo; apply limpieza_lookup|]. split; [|done].
  apply map_eq. intros k. rewrite limpieza_lookup, map_lookup_filter.
  destruct (tokensTemporales w !! k) as [d|]; simpl; [|done].
  unfold vencido. destruct (Z.ltb_spec (expira d) ahora).
  - by rewrite option_guard_False by (simpl; lia).
  - by rewrite option_guard_True by (simpl; lia).
Qed.

(** C8. A run of the clean-up can fail and leave expired records behind.
    After [/enviar-token] has stored a record under a [correo] that is an
    object whose conversion to a string throws, the run of the callback
    made once the record has expired throws at that entry, before its
    [delete]: the record is still in the store, expired, and the state is
    the one from before the run. *)
Theorem C8_limpieza_lanza :
  aceptada peticion_objeto
  ∧ (∃ d,
       tokensTemporales
         (enviar_token entorno_por_defecto azar_abc peticion_objeto (Enviado "m-1")
            lecturas_t0 mundo_inicial).2 !! JRef 1 = Some d
       ∧ vencido 901001 d = true)
  ∧ enumera [JRef 1]
      (tokensTemporales
         (enviar_token entorno_por_defecto azar_abc peticion_objeto (Enviado "m-1")
            lecturas_t0 mundo_inicial).2)
  ∧ limpieza_temporizador objetos_uno [JRef 1] 901001
      (enviar_token entorno_por_defecto azar_abc peticion_objeto (Enviado "m-1")
         lecturas_t0 mundo_inicial).2
    = Lanza
        (enviar_token entorno_por_defecto azar_abc peticion_objeto (Enviado "m-1")
           lecturas_t0 mundo_inicial).2.
Proof.
  split; [split; [vm_compute; reflexivity | left; vm_compute; reflexivity]|].
  split; [eexists; split; vm_compute; reflexivity|].
  split; [|vm_compute; reflexivity].
  split; [apply NoDup_singleton|]. intros k.
  rewrite (enviar_token_enviado entorno_por_defecto azar_abc peticion_objeto "m-1"
             lecturas_t0 mundo_inicial)
    by (split; [vm_compute; reflexivity | left; vm_compute; reflexivity]).
  change (prop (body peticion_objeto) "correo") with (JRef 1). simpl.
  rewrite list_elem_of_singleton. split.
  - intros ->. rewrite lookup_insert_eq. by eexists.
  - intros [d Hd]. destruct (decide (k = JRef 1)) as [|Hne]; [done|].
    rewrite lookup_insert_ne in Hd by done. by rewrite lookup_empty in Hd.
Qed.

(** C9. [POST /token-enviado] and [GET /token-enviado] agree: when the
    [correo] of the body of one request is the [correo] of the query of the
    other, they give the same answer and the same state from the same state
    at the same reading of the clock; for a truthy [correo] both are
    [obtenerToken] on it. *)
Theorem C9_post_get_equivalentes req1 req2 ahora w :
  prop (body req1) "correo" = prop (query req2) "correo" ->
  post_token_enviado req1 ahora w = get_token_enviado req2 ahora w
  ∧ (truthy (prop (body req1) "correo") = true ->
     post_token_enviado req1 ahora w
       = obtenerToken (prop (body req1) "correo") ahora w
     ∧ get_token_enviado req2 ahora w
       = obtenerToken (prop (query req2) "correo") ahora w).
Proof.
  intros Heq. unfold post_token_enviado, get_token_enviado. rewrite <- Heq.
  split; [done|]. intros Ht. by rewrite Ht.
Qed.

Lemma C9_post_get_equivalentes_witness :
  post_token_enviado peticion_ana 2000
    (enviar_token entorno_por_defecto azar_abc peticion_ana (Enviado "m-1")
       lecturas_t0 mundo_inicial).2
  = get_token_enviado consulta_get_ana 2000
      (enviar_token entorno_por_defecto azar_abc peticion_ana (Enviado "m-1")
         lecturas_t0 mundo_inicial).2.
Proof.
  refine (proj1 (C9_post_get_equivalentes peticion_ana consulta_get_ana 2000 _ _)).
  vm_compute. reflexivity.
Defined.

(** C10. An empty string in [correo] (or in [tipo], for the issuance) is
    handled as the absence of the field: with the field set to [""] and
    with the field removed, [/enviar-token], [POST /token-enviado] and
    [GET /token-enviado] give the same result, which is the answer 400
    (ValidationError) and the state unchanged. *)
Theorem C10_cadena_vacia e rb (o q : objeto) r t ahora w :
  (enviar_token e rb {| body := <["correo"%string := JStr ""]> o; query := q |} r t w
     = enviar_token e rb {| body := delete "correo"%string o; query := q |} r t w
   ∧ enviar_token e rb {| body := <["correo"%string := JStr ""]> o; query := q |} r t w
     = (responder 400 (CError "Faltan datos: correo o tipo"), w))
  ∧ (enviar_token e rb {| body := <["tipo"%string := JStr ""]> o; query := q |} r t w
       = enviar_token e rb {| body := delete "tipo"%string o; query := q |} r t w
     ∧ enviar_token e rb {| body := <["tipo"%string := JStr ""]> o; query := q |} r t w
       = (responder 400 (CError "Faltan datos: correo o tipo"), w))
  ∧ (post_token_enviado {| body := <["correo"%string := JStr ""]> o; query := q |} ahora w
       = post_token_enviado {| body := delete "correo"%string o; query := q |} ahora w
     ∧ post_token_enviado {| body := <["correo"%string := JStr ""]> o; query := q |} ahora w
       = (responder 400 (CError "Falta el correo"), w))
  ∧ (get_token_enviado {| body := o; query := <["correo"%string := JStr ""]> q |} ahora w
       = get_token_enviado {| body := o; query := delete "correo"%string q |} ahora w
     ∧ get_token_enviado {| body := o; query := <["correo"%string := JStr ""]> q |} ahora w
       = (responder 400 (CError "Falta el correo"), w))
  ∧ fallo_de (responder 400 (CError "Falta el correo")) = Some ValidationError.
Proof.
  split; [|split; [|split; [|split]]].
  - unfold enviar_token, enviar_token_inicio, prop; simpl.
    by rewrite lookup_insert_eq, lookup_delete_eq.
  - unfold enviar_token, enviar_token_inicio, prop; simpl.
    rewrite lookup_insert_eq, lookup_delete_eq.
    rewrite lookup_insert_ne, lookup_delete_ne by done. simpl.
    by destruct (truthy (default JUndefined (o !! "correo"%string))).
  - unfold post_token_enviado, prop; simpl.
    by rewrite lookup_insert_eq, lookup_delete_eq.
  - unfold get_token_enviado, prop; simpl.
    by rewrite lookup_insert_eq, lookup_delete_eq.
  - reflexivity.
Qed.

(** ** Further properties of the handlers *)

Lemma obtenerToken_sin_altas correo ahora w :
  sin_altas w (obtenerToken correo ahora w).2.
Proof.
  unfold sin_altas, obtenerToken.
  destruct (tokensTemporales w !! correo) as [d|]; [destruct (vencido ahora d)|];
    simpl; repeat split; try done. apply delete_subseteq.
Qed.

Lemma obtenerToken_otras_claves correo ahora w k :
  k ≠ correo ->
  tokensTemporales (obtenerToken correo ahora w).2 !! k = tokensTemporales w !! k.
Proof.
  intros Hne. unfold obtenerToken.
  destruct (tokensTemporales w !! correo) as [d|]; [destruct (vencido ahora d)|];
    simpl; try done. by apply lookup_delete_ne.
Qed.

Lemma limpieza_sin_altas ahora w : sin_altas w (limpieza ahora w).
Proof.
  split; [|done]. apply map_subseteq_spec. intros k d.
  rewrite limpieza_lookup.
  destruct (tokensTemporales w !! k) as [d'|]; [|done].
  by destruct (vencido ahora d').
Qed.

Lemma enviar_token_inicio_almacen e rb req w :
  tokensTemporales (enviar_token_inicio e rb req w).2 = tokensTemporales w.
Proof.
  destruct (decide (aceptada req)) as [Hok|Hno].
  - by rewrite (enviar_token_inicio_aceptada e rb req w Hok).
  - destruct (enviar_token_inicio_no_aceptada e rb req w Hno) as [m Hm]. by rewrite Hm.
Qed.

Lemma enviar_token_fin_almacen e p id t w :
  tokensTemporales (enviar_token_fin e p (Enviado id) t w).2 =
    <[p_correo p := registro_de_pendiente e p t]> (tokensTemporales w).
Proof. reflexivity. Qed.

(** The lookups and the clean-up only ever remove: whatever the request,
    the clock and the state, the store after [POST /token-enviado],
    [GET /token-enviado] or a run of the clean-up is a part of the store
    before (no record added, none altered), the counter and the calls made
    are as before, and a lookup leaves the record of every other address
    where it was. *)
Theorem consultas_y_limpieza_solo_quitan req ahora w :
  (tokensTemporales (post_token_enviado req ahora w).2 ⊆ tokensTemporales w
   ∧ tokensCounter (post_token_enviado req ahora w).2 = tokensCounter w
   ∧ efectos (post_token_enviado req ahora w).2 = efectos w
   ∧ ∀ k, k ≠ prop (body req) "correo" ->
       tokensTemporales (post_token_enviado req ahora w).2 !! k = tokensTemporales w !! k)
  ∧ (tokensTemporales (get_token_enviado req ahora w).2 ⊆ tokensTemporales w
     ∧ tokensCounter (get_token_enviado req ahora w).2 = tokensCounter w
     ∧ efectos (get_token_enviado req ahora w).2 = efectos w
     ∧ ∀ k, k ≠ prop (query req) "correo" ->
         tokensTemporales (get_token_enviado req ahora w).2 !! k = tokensTemporales w !! k)
  ∧ (tokensTemporales (limpieza ahora w) ⊆ tokensTemporales w
     ∧ tokensCounter (limpieza ahora w) = tokensCounter w
     ∧ efectos (limpieza ahora w) = efectos w).
Proof.
  split; [|split].
  - unfold post_token_enviado.
    destruct (truthy (prop (body req) "correo")); simpl.
    + destruct (obtenerToken_sin_altas (prop (body req) "correo") ahora w) as (?&?&?).
      repeat split; try done. intros k Hk. by apply obtenerToken_otras_claves.
    + by repeat split.
  - unfold get_token_enviado.
    destruct (truthy (prop (query req) "correo")); simpl.
    + destruct (obtenerToken_sin_altas (prop (query req) "correo") ahora w) as (?&?&?).
      repeat split; try done. intros k Hk. by apply obtenerToken_otras_claves.
    + by repeat split.
  - apply limpieza_sin_altas.
Qed.

Lemma consultas_y_limpieza_solo_quitan_witness :
  tokensTemporales
    (post_token_enviado peticion_ana 901001
       (enviar_token entorno_por_defecto azar_abc peticion_ana (Enviado "m-1")
          lecturas_t0 mundo_inicial).2).2 !! JStr "eva@example.com"
  = tokensTemporales
      (enviar_token entorno_por_defecto azar_abc peticion_ana (Enviado "m-1")
         lecturas_t0 mundo_inicial).2 !! JStr "eva@example.com".
Proof.
  destruct (consultas_y_limpieza_solo_quitan peticion_ana 901001
              (enviar_token entorno_por_defecto azar_abc peticion_ana (Enviado "m-1")
                 lecturas_t0 mundo_inicial).2) as ((_ & _ & _ & Hk) & _).
  apply Hk. vm_compute. discriminate.
Defined.

(** [/enviar-token] touches the record of its own address only: whatever
    the request and the outcome of [sendMail], every other address keeps its
    record (or its absence), and the store grows by one record at most. *)
Theorem enviar_token_otras_claves e rb req r t w :
  (∀ k, k ≠ prop (body req) "correo" ->
     tokensTemporales (enviar_token e rb req r t w).2 !! k = tokensTemporales w !! k)
  ∧ (size (tokensTemporales (enviar_token e rb req r t w).2)
       <= S (size (tokensTemporales w)))%nat.
Proof.
  unfold enviar_token.
  destruct (decide (aceptada req)) as [Hok|Hno].
  - rewrite (enviar_token_inicio_aceptada e rb req w Hok). destruct r; simpl.
    + split.
      * intros k Hk. by rewrite lookup_insert_ne.
      * rewrite map_size_insert.
        destruct (tokensTemporales w !! prop (body req) "correo"); simpl; lia.
    + split; [done | lia].
  - destruct (enviar_token_inicio_no_aceptada e rb req w Hno) as [m Hm]. rewrite Hm.
    split; [done | simpl; lia].
Qed.

Lemma enviar_token_otras_claves_witness :
  tokensTemporales
    (enviar_token entorno_por_defecto azar_abc peticion_ana (Enviado "m-1")
       lecturas_t0 mundo_inicial).2 !! JStr "eva@example.com"
  = tokensTemporales mundo_inicial !! JStr "eva@example.com".
Proof.
  destruct (enviar_token_otras_claves entorno_por_defecto azar_abc peticion_ana
              (Enviado "m-1") lecturas_t0 mundo_inicial) as [Hk _].
  apply Hk. vm_compute. discriminate.
Defined.

(** One token per issuance: for an accepted request whose mail is sent,
    the token of the answer, the token of the record stored under the
    address and the token of the one mail handed to [sendMail] are the
    same, the mail goes to the address the record is stored under, and its
    subject follows the purpose. *)
Theorem enviar_token_un_mismo_token e rb req id t w :
  aceptada req ->
  ∃ tk m d w1,
    enviar_token e rb req (Enviado id) t w =
      (responder 200
         (CEnviado "Correo enviado correctamente" tk (prop (body req) "tipo")
            (l_timestamp t) id), w1)
    ∧ efectos w1 = efectos w ++ [EInc; ESendMail m]
    ∧ tokensTemporales w1 !! prop (body req) "correo" = Some d
    ∧ token d = tk ∧ h_token (html m) = tk
    ∧ to m = prop (body req) "correo"
    ∧ tipo d = prop (body req) "tipo" ∧ h_tipo (html m) = prop (body req) "tipo"
    ∧ (prop (body req) "tipo" = JStr "recuperacion" ->
         subject m = "🔑 Recupera tu cuenta"%string)
    ∧ (prop (body req) "tipo" = JStr "registro" ->
         subject m = "🪪 Verifica tu cuenta"%string).
Proof.
  intros Hok.
  exists (generarToken rb), (mensaje_de e req (generarToken rb)),
    (registro_de e req (generarToken rb) t). eexists.
  split; [by apply enviar_token_enviado|]. simpl.
  split; [by rewrite <- app_assoc|]. split; [apply lookup_insert_eq|].
  repeat split; intros Ht; by rewrite Ht.
Qed.

Lemma enviar_token_un_mismo_token_witness :
  ∃ m d w1,
    enviar_token entorno_por_defecto azar_abc peticion_ana_recuperacion (Enviado "m-1")
      lecturas_t0 mundo_inicial =
      (responder 200
         (CEnviado "Correo enviado correctamente" "ABCDEFGH" (JStr "recuperacion")
            1001 "m-1"), w1)
    ∧ efectos w1 = [EInc; ESendMail m]
    ∧ tokensTemporales w1 !! JStr "ana@example.com" = Some d
    ∧ token d = "ABCDEFGH"%string ∧ h_token (html m) = "ABCDEFGH"%string
    ∧ subject m = "🔑 Recupera tu cuenta"%string.
Proof.
  destruct (enviar_token_un_mismo_token entorno_por_defecto azar_abc
              peticion_ana_recuperacion "m-1" lecturas_t0 mundo_inicial)
    as (tk & m & d & w1 & Hr & He & Hd & Htk & Hm & _ & _ & _ & Hs & _).
  - split; [vm_compute; reflexivity | right; vm_compute; reflexivity].
  - assert (Heq : tk = "ABCDEFGH"%string).
    { apply (f_equal fst) in Hr. simpl in Hr. vm_compute in Hr. congruence. }
    rewrite Heq in Hr, Htk, Hm. exists m, d, w1.
    split; [exact Hr|]. split; [exact He|]. split; [exact Hd|].
    split; [exact Htk|]. split; [exact Hm|]. apply Hs. vm_compute. reflexivity.
Defined.

(** While the mail is being sent nothing is stored: the part of
    [/enviar-token] before its [await] leaves the store as it was, for
    every request, so a lookup that runs during the [await] gets the answer
    it would have got before the request. *)
Theorem enviar_token_en_vuelo_invisible e rb req w correo ahora :
  tokensTemporales (enviar_token_inicio e rb req w).2 = tokensTemporales w
  ∧ (obtenerToken correo ahora (enviar_token_inicio e rb req w).2).1
      = (obtenerToken correo ahora w).1
  ∧ tokensTemporales (obtenerToken correo ahora (enviar_token_inicio e rb req w).2).2
      = tokensTemporales (obtenerToken correo ahora w).2.
Proof.
  pose proof (enviar_token_inicio_almacen e rb req w) as Hs.
  split; [exact Hs|]. unfold obtenerToken. rewrite Hs.
  destruct (tokensTemporales w !! correo) as [d|]; [destruct (vencido ahora d)|];
    simpl; try done. by rewrite Hs.
Qed.

(** Two issuances for one address whose mails are in flight together: the
    record that stays is the one of the request whose [sendMail] settles
    last, whichever request came first: its token, its purpose and its date
    of creation are those of that request. *)
Theorem enviar_token_gana_el_ultimo_en_terminar
    e rb1 rb2 req1 req2 id1 id2 t1 t2 w p1 p2 w1 w2 :
  aceptada req1 ->
  aceptada req2 ->
  prop (body req1) "correo" = prop (body req2) "correo" ->
  enviar_token_inicio e rb1 req1 w = (inr p1, w1) ->
  enviar_token_inicio e rb2 req2 w1 = (inr p2, w2) ->
  (∃ d,
     tokensTemporales
       (enviar_token_fin e p1 (Enviado id1) t1
          (enviar_token_fin e p2 (Enviado id2) t2 w2).2).2 !! prop (body req1) "correo"
       = Some d
     ∧ token d = generarToken rb1
     ∧ tipo d = prop (body req1) "tipo"
     ∧ creado d = l_creado t1)
  ∧ (∃ d,
       tokensTemporales
         (enviar_token_fin e p2 (Enviado id2) t2
            (enviar_token_fin e p1 (Enviado id1) t1 w2).2).2 !! prop (body req1) "correo"
         = Some d
       ∧ token d = generarToken rb2
       ∧ tipo d = prop (body req2) "tipo"
       ∧ creado d = l_creado t2).
Proof.
  intros Hok1 Hok2 Heq H1 H2.
  rewrite (enviar_token_inicio_aceptada e rb1 req1 w Hok1) in H1.
  rewrite (enviar_token_inicio_aceptada e rb2 req2 w1 Hok2) in H2.
  injection H1 as <- <-. injection H2 as <- <-.
  rewrite !enviar_token_fin_almacen. simpl. split.
  - eexists. split; [apply lookup_insert_eq | done].
  - eexists. split; [rewrite Heq; apply lookup_insert_eq | done].
Qed.

Lemma enviar_token_gana_el_ultimo_en_terminar_witness :
  ∃ d,
    tokensTemporales
      (enviar_token_fin entorno_por_defecto
         (Pendiente (JStr "ana@example.com") (JStr "registro") "ABCDEFGH")
         (Enviado "m-1") lecturas_t1
         (enviar_token_fin entorno_por_defecto
            (Pendiente (JStr "ana@example.com") (JStr "recuperacion") "wAAAAAA")
            (Enviado "m-2") lecturas_t0
            (enviar_token_inicio entorno_por_defecto azar_con_mas
               peticion_ana_recuperacion
               (enviar_token_inicio entorno_por_defecto azar_abc peticion_ana
                  mundo_inicial).2).2).2).2 !! JStr "ana@example.com"
    = Some d
    ∧ token d = "ABCDEFGH"%string.
Proof.
  pose proof (enviar_token_gana_el_ultimo_en_terminar entorno_por_defecto
                azar_abc azar_con_mas peticion_ana peticion_ana_recuperacion
                "m-1" "m-2" lecturas_t1 lecturas_t0 mundo_inicial
                (Pendiente (JStr "ana@example.com") (JStr "registro") "ABCDEFGH")
                (Pendiente (JStr "ana@example.com") (JStr "recuperacion") "wAAAAAA")
                (enviar_token_inicio entorno_por_defecto azar_abc peticion_ana
                   mundo_inicial).2
                (enviar_token_inicio entorno_por_defecto azar_con_mas
                   peticion_ana_recuperacion
                   (enviar_token_inicio entorno_por_defecto azar_abc peticion_ana
                      mundo_inicial).2).2) as H.
  destruct H as [(d & Hd & Htk & _) _].
  - split; [vm_compute; reflexivity | left; vm_compute; reflexivity].
  - split; [vm_compute; reflexivity | right; vm_compute; reflexivity].
  - vm_compute. reflexivity.
  - vm_compute. reflexivity.
  - vm_compute. reflexivity.
  - exists d. split; [exact Hd | exact Htk].
Defined.

(** The two guards of [/enviar-token], exactly: the request goes on to
    [sendMail] if and only if [correo] is truthy and [tipo] is one of the
    two strings (nothing else is asked of [correo]); it is refused with
    "Faltan datos" exactly when [correo] or [tipo] is falsy, and with
    "Tipo debe ser" exactly when both are truthy and [tipo] is another
    value. *)
Theorem enviar_token_validacion_exacta e rb req w :
  (aceptada req <-> ∃ p w1, enviar_token_inicio e rb req w = (inr p, w1))
  ∧ (truthy (prop (body req) "correo") = false ∨ truthy (prop (body req) "tipo") = false
     <-> enviar_token_inicio e rb req w
           = (inl (responder 400 (CError "Faltan datos: correo o tipo")), w))
  ∧ (truthy (prop (body req) "correo") = true ∧ truthy (prop (body req) "tipo") = true
     ∧ ¬ tipo_valido (prop (body req) "tipo")
     <-> enviar_token_inicio e rb req w
           = (inl (responder 400 (CError "Tipo debe ser 'registro' o 'recuperacion'")), w)).
Proof.
  split; [|split].
  - split.
    + intros Hok. rewrite (enviar_token_inicio_aceptada e rb req w Hok). by eexists _, _.
    + intros (p & w1 & Hp). destruct (decide (aceptada req)) as [|Hno]; [done|].
      destruct (enviar_token_inicio_no_aceptada e rb req w Hno) as [m Hm]. congruence.
  - unfold enviar_token_inicio.
    destruct (truthy (prop (body req) "correo")),
      (truthy (prop (body req) "tipo")); simpl; try (split; [by auto | by auto]).
    split; [intros [Hx|Hx]; discriminate|].
    destruct (negb _ && negb _); discriminate.
  - unfold enviar_token_inicio, estricto_igual, tipo_valido.
    destruct (truthy (prop (body req) "correo")),
      (truthy (prop (body req) "tipo")); simpl;
      try (split; [intros (?&?&?); discriminate | discriminate]).
    destruct (decide (prop (body req) "tipo" = JStr "registro")) as [H1|H1];
      [rewrite bool_decide_eq_true_2 by done | rewrite bool_decide_eq_false_2 by done];
      simpl.
    { split; [intros (_ & _ & Hn); exfalso; apply Hn; auto | discriminate]. }
    destruct (decide (prop (body req) "tipo" = JStr "recuperacion")) as [H2|H2];
      [rewrite !bool_decide_eq_true_2 by done | rewrite bool_decide_eq_false_2 by done];
      simpl.
    { split; [intros (_ & _ & Hn); exfalso; apply Hn; auto | discriminate]. }
    split; [done|]. intros _. repeat split. intros [?|?]; contradiction.
Qed.

Lemma enviar_token_validacion_exacta_witness :
  enviar_token_inicio entorno_por_defecto azar_abc
    {| body := {[ "correo"%string := JStr "ana@example.com";
                  "tipo"%string := JStr "Registro" ]};
       query := ∅ |} mundo_inicial
  = (inl (responder 400 (CError "Tipo debe ser 'registro' o 'recuperacion'")),
     mundo_inicial).
Proof.
  apply (enviar_token_validacion_exacta entorno_por_defecto azar_abc).
  split; [vm_compute; reflexivity|]. split; [vm_compute; reflexivity|].
  intros [H|H]; vm_compute in H; discriminate.
Defined.

Lemma mundo_eq (w1 w2 : mundo) :
  tokensTemporales w1 = tokensTemporales w2 ->
  tokensCounter w1 = tokensCounter w2 ->
  efectos w1 = efectos w2 ->
  w1 = w2.
Proof. destruct w1, w2; simpl. by intros -> -> ->. Qed.

Lemma limpieza_maximo t1 t2 w :
  limpieza t2 (limpieza t1 w) = limpieza (Z.max t1 t2) w
  ∧ limpieza t1 (limpieza t2 w) = limpieza t2 (limpieza t1 w)
  ∧ limpieza t1 (limpieza t1 w) = limpieza t1 w.
Proof.
  assert (Hmax : ∀ a b, limpieza b (limpieza a w) = limpieza (Z.max a b) w).
  { intros a b. apply mundo_eq; [|done|done].
    apply map_eq. intros k. rewrite !limpieza_lookup. unfold vencido.
    destruct (tokensTemporales w !! k) as [d|]; [|done].
    destruct (Z.ltb_spec (expira d) a), (Z.ltb_spec (expira d) b),
      (Z.ltb_spec (expira d) (Z.max a b)); try done; lia. }
  split; [apply Hmax|]. split.
  - by rewrite !Hmax, Z.max_comm.
  - by rewrite Hmax, Z.max_id.
Qed.

Lemma obtenerToken_lookup correo t w k :
  tokensTemporales (obtenerToken correo t w).2 !! k =
    if decide (k = correo) then
      match tokensTemporales w !! correo with
      | Some d => if vencido t d then None else Some d
      | None => None
      end
    else tokensTemporales w !! k.
Proof.
  unfold obtenerToken.
  destruct (tokensTemporales w !! correo) as [d|] eqn:Hd;
    [destruct (vencido t d)|]; simpl; destruct (decide (k = correo)) as [->|Hne];
    rewrite ?lookup_delete_eq, ?lookup_delete_ne by done; done.
Qed.

Lemma obtenerToken_contador correo t w :
  tokensCounter (obtenerToken correo t w).2 = tokensCounter w.
Proof. apply obtenerToken_sin_altas. Qed.

Lemma obtenerToken_efectos correo t w :
  efectos (obtenerToken correo t w).2 = efectos w.
Proof. apply obtenerToken_sin_altas. Qed.

Lemma limpieza_contador ahora w : tokensCounter (limpieza ahora w) = tokensCounter w.
Proof. reflexivity. Qed.

Lemma limpieza_efectos ahora w : efectos (limpieza ahora w) = efectos w.
Proof. reflexivity. Qed.

Lemma limpieza_consulta_orden correo t ahora w :
  (obtenerToken correo t (limpieza ahora w)).2 = limpieza ahora (obtenerToken correo t w).2
  ∧ (t <= ahora -> limpieza ahora (obtenerToken correo t w).2 = limpieza ahora w).
Proof.
  split.
  - apply mundo_eq.
    + apply map_eq. intros k.
      rewrite obtenerToken_lookup, !limpieza_lookup, obtenerToken_lookup.
      destruct (decide (k = correo)) as [->|Hne]; [|done].
      destruct (tokensTemporales w !! correo) as [d|]; [|done].
      destruct (vencido ahora d) eqn:Ha, (vencido t d) eqn:Ht; simpl;
        rewrite ?Ha, ?Ht; done.
    + by rewrite obtenerToken_contador, !limpieza_contador, obtenerToken_contador.
    + by rewrite obtenerToken_efectos, !limpieza_efectos, obtenerToken_efectos.
  - intros Hle. apply mundo_eq.
    + apply map_eq. intros k. rewrite !limpieza_lookup, obtenerToken_lookup.
      destruct (decide (k = correo)) as [->|Hne]; [|done].
      destruct (tokensTemporales w !! correo) as [d|]; [|done].
      unfold vencido.
      destruct (Z.ltb_spec (expira d) t), (Z.ltb_spec (expira d) ahora); try done; lia.
    + by rewrite !limpieza_contador, obtenerToken_contador.
    + by rewrite !limpieza_efectos, obtenerToken_efectos.
Qed.

(** The clean-up does not change what a lookup made afterwards answers,
    except that it may turn "expired" into "not found": for a clean-up
    whose reading of the clock is not after the one of the lookup, a lookup
    that would not have answered 410 gets the same answer after the
    clean-up, and one that would have answered 410 gets 410 or 404. *)
Theorem limpieza_no_cambia_consultas correo t ahora w :
  ahora <= t ->
  (status (obtenerToken correo t w).1 ≠ 410 ->
     (obtenerToken correo t (limpieza ahora w)).1 = (obtenerToken correo t w).1)
  ∧ (status (obtenerToken correo t w).1 = 410 ->
       status (obtenerToken correo t (limpieza ahora w)).1 = 410
       ∨ status (obtenerToken correo t (limpieza ahora w)).1 = 404).
Proof.
  intros Hle. unfold obtenerToken. rewrite limpieza_lookup. unfold vencido.
  destruct (tokensTemporales w !! correo) as [d|]; simpl;
    [|split; [done | intros Hx; discriminate]].
  destruct (Z.ltb_spec (expira d) ahora) as [Ha|Ha]; simpl.
  - assert ((expira d <? t) = true) as -> by (apply Z.ltb_lt; lia). simpl.
    split; [intros Hx; by destruct Hx | intros _; by right].
  - destruct (expira d <? t); simpl; split; try done. intros _. by left.
Qed.

Lemma limpieza_no_cambia_consultas_witness :
  (obtenerToken (JStr "ana@example.com") 2000
     (limpieza 1500
        (enviar_token entorno_por_defecto azar_abc peticion_ana (Enviado "m-1")
           lecturas_t0 mundo_inicial).2)).1
  = (obtenerToken (JStr "ana@example.com") 2000
       (enviar_token entorno_por_defecto azar_abc peticion_ana (Enviado "m-1")
          lecturas_t0 mundo_inicial).2).1.
Proof.
  refine (proj1 (limpieza_no_cambia_consultas (JStr "ana@example.com") 2000 1500 _ _) _).
  - vm_compute. discriminate.
  - vm_compute. discriminate.
Defined.

(** ** Invariants of the running service *)

Lemma envios_sendMail_inc m w : envios (sendMail m (inc w)) = envios w ++ [m].
Proof.
  unfold envios. simpl. rewrite <- app_assoc. by rewrite omap_app.
Qed.

Lemma enviado_a_mas w w' k tk tp :
  (∀ m, m ∈ envios w -> m ∈ envios w') ->
  enviado_a w k tk tp -> enviado_a w' k tk tp.
Proof. intros Hsub (m & Hm & H). exists m. split; [by apply Hsub | done]. Qed.

Lemma invariante_sin_altas s w' :
  invariante s ->
  sin_altas (s_mundo s) w' ->
  invariante {| s_mundo := w'; en_vuelo := en_vuelo s |}.
Proof.
  intros (Hc & Hp & Hs & Hn) (Hsub & Hcnt & Hef).
  assert (Henv : envios w' = envios (s_mundo s)) by (unfold envios; by rewrite Hef).
  unfold invariante, enviado_a in *. simpl. rewrite Henv, Hcnt.
  split; [done|]. split; [done|]. split.
  - intros k d Hk. apply Hs. by eapply lookup_weaken.
  - apply map_subseteq_size in Hsub. lia.
Qed.

Lemma invariante_inicial : invariante sistema_inicial.
Proof.
  unfold invariante. simpl. split; [done|]. split.
  - intros p Hp. by apply elem_of_nil in Hp.
  - split; [|by rewrite map_size_empty]. intros k d Hk. by rewrite lookup_empty in Hk.
Qed.

Lemma invariante_paso e s s' :
  invariante s -> paso_sistema e s s' -> invariante s'.
Proof.
  intros Hinv Hpaso.
  destruct Hpaso as [rb req s | p r t w l1 l2 | req ahora s | req ahora s | ahora s].
  - destruct (decide (aceptada req)) as [Hok|Hno].
    + rewrite (enviar_token_inicio_aceptada e rb req (s_mundo s) Hok). simpl.
      destruct Hinv as (Hc & Hp & Hs & Hn).
      assert (Hnuevo : enviado_a (sendMail (mensaje_de e req (generarToken rb)) (inc (s_mundo s)))
                         (prop (body req) "correo") (generarToken rb) (prop (body req) "tipo")).
      { exists (mensaje_de e req (generarToken rb)). split; [|done].
        rewrite envios_sendMail_inc. apply elem_of_app. right. by apply list_elem_of_singleton. }
      assert (Hmas : ∀ m, m ∈ envios (s_mundo s) ->
                          m ∈ envios (sendMail (mensaje_de e req (generarToken rb))
                                        (inc (s_mundo s)))).
      { intros m Hm. rewrite envios_sendMail_inc. apply elem_of_app. by left. }
      unfold invariante. simpl. split; [|split; [|split]].
      * change (tokensCounter (s_mundo s) + 1 =
                Z.of_nat (length (envios (sendMail (mensaje_de e req (generarToken rb))
                                            (inc (s_mundo s)))))).
        rewrite envios_sendMail_inc, length_app. simpl. lia.
      * intros p Hin. apply elem_of_app in Hin as [Hin | Hin].
        -- destruct (Hp p Hin) as (?&?&?&?).
           split; [done|]. split; [done|]. split; [done|]. by eapply enviado_a_mas.
        -- apply list_elem_of_singleton in Hin. subst p. simpl.
           destruct Hok as [Hc1 Ht1]. split; [done|]. split; [done|].
           split; [apply generarToken_alfanumerico | exact Hnuevo].
      * intros k d Hk. destruct (Hs k d Hk) as (?&?&?&?).
        split; [done|]. split; [done|]. split; [done|]. by eapply enviado_a_mas.
      * rewrite length_app. simpl. lia.
    + destruct (enviar_token_inicio_no_aceptada e rb req (s_mundo s) Hno) as [m Hm].
      rewrite Hm. simpl. by destruct s.
  - destruct Hinv as (Hc & Hp & Hs & Hn). simpl in *. destruct r as [id | msg]; simpl.
    + unfold invariante. simpl. split; [done|]. split; [|split].
      * intros q Hq. destruct (Hp q) as (?&?&?&?); [|done].
        apply elem_of_app in Hq as [Hq|Hq]; apply elem_of_app; [by left|].
        right. by apply elem_of_cons; right.
      * intros k d Hk. destruct (decide (k = p_correo p)) as [->|Hne].
        -- rewrite lookup_insert_eq in Hk. injection Hk as <-. simpl.
           apply Hp. apply elem_of_app. right. by apply elem_of_cons; left.
        -- rewrite lookup_insert_ne in Hk by done. by apply Hs.
      * rewrite map_size_insert. rewrite length_app in *. simpl in Hn.
        destruct (tokensTemporales w !! p_correo p); simpl; lia.
    + unfold invariante. simpl. split; [done|]. split; [|split; [done|]].
      * intros q Hq. apply Hp.
        apply elem_of_app in Hq as [Hq|Hq]; apply elem_of_app; [by left|].
        right. by apply elem_of_cons; right.
      * rewrite length_app in *. simpl in Hn. lia.
  - apply invariante_sin_altas; [done|]. simpl.
    unfold post_token_enviado. destruct (truthy _); simpl.
    + apply obtenerToken_sin_altas.
    + by repeat split.
  - apply invariante_sin_altas; [done|]. simpl.
    unfold get_token_enviado. destruct (truthy _); simpl.
    + apply obtenerToken_sin_altas.
    + by repeat split.
  - apply invariante_sin_altas; [done|]. apply limpieza_sin_altas.
Qed.

Lemma invariante_alcanzable e s :
  rtc (paso_sistema e) sistema_inicial s -> invariante s.
Proof.
  revert s. apply rtc_ind_r.
  - apply invariante_inicial.
  - intros s1 s2 _ Hpaso Hinv. by eapply invariante_paso.
Qed.

Lemma alcanzable_ana :
  rtc (paso_sistema entorno_por_defecto) sistema_inicial
    {| s_mundo := (enviar_token entorno_por_defecto azar_abc peticion_ana (Enviado "m-1")
                     lecturas_t0 mundo_inicial).2;
       en_vuelo := [] |}.
Proof.
  eapply rtc_l.
  { exact (ps_inicio entorno_por_defecto azar_abc peticion_ana sistema_inicial). }
  eapply rtc_l; [|apply rtc_refl].
  exact (ps_fin entorno_por_defecto
           (Pendiente (JStr "ana@example.com") (JStr "registro") "ABCDEFGH")
           (Enviado "m-1") lecturas_t0
           (enviar_token_inicio entorno_por_defecto azar_abc peticion_ana mundo_inicial).2
           [] []).
Defined.

(** At any time of a run of the service, the counter is the number of
    mails [/enviar-token] has handed to [sendMail] so far: one per accepted
    request, whether the mail went out or not. *)
Theorem contador_cuenta_envios e s :
  rtc (paso_sistema e) sistema_inicial s ->
  tokensCounter (s_mundo s) = Z.of_nat (length (envios (s_mundo s))).
Proof. intros Hrtc. apply (invariante_alcanzable e s Hrtc). Qed.

Lemma contador_cuenta_envios_witness :
  tokensCounter
    (enviar_token entorno_por_defecto azar_abc peticion_ana (Enviado "m-1")
       lecturas_t0 mundo_inicial).2 = 1.
Proof.
  exact (contador_cuenta_envios entorno_por_defecto _ alcanzable_ana).
Defined.

(** At any time of a run of the service, every record of the store sits
    under a truthy key, has ["registro"] or ["recuperacion"] as [tipo], and
    a token of at most eight characters, all letters or digits. *)
Theorem registros_bien_formados e s k d :
  rtc (paso_sistema e) sistema_inicial s ->
  tokensTemporales (s_mundo s) !! k = Some d ->
  truthy k = true
  ∧ (tipo d = JStr "registro" ∨ tipo d = JStr "recuperacion")
  ∧ (String.length (token d) <= 8)%nat
  ∧ Forall (fun c => es_alfanumerico c = true) (list_ascii_of_string (token d)).
Proof.
  intros Hrtc Hk.
  destruct (invariante_alcanzable e s Hrtc) as (_ & _ & Hs & _).
  destruct (Hs k d Hk) as (Ht & Htp & [Hlen Hall] & _). done.
Qed.

Lemma registros_bien_formados_witness :
  truthy (JStr "ana@example.com") = true
  ∧ (JStr "registro" = JStr "registro" ∨ JStr "registro" = JStr "recuperacion")
  ∧ (String.length "ABCDEFGH" <= 8)%nat
  ∧ Forall (fun c => es_alfanumerico c = true) (list_ascii_of_string "ABCDEFGH").
Proof.
  apply (registros_bien_formados entorno_por_defecto _ (JStr "ana@example.com")
           (Registro "ABCDEFGH" (JStr "registro") 1000 901000) alcanzable_ana).
  vm_compute. reflexivity.
Defined.

(** At any time of a run of the service, a token that a lookup gives out
    was mailed: when [obtenerToken] answers with a token for an address, a
    mail with that token and that purpose has been handed to [sendMail] for
    that very address. *)
Theorem token_consultado_fue_enviado e s correo ahora msg c tk tp cre exp :
  rtc (paso_sistema e) sistema_inicial s ->
  json (obtenerToken correo ahora (s_mundo s)).1 = CToken msg c tk tp cre exp ->
  c = correo
  ∧ ∃ m, m ∈ envios (s_mundo s)
         ∧ to m = correo ∧ h_token (html m) = tk ∧ h_tipo (html m) = tp.
Proof.
  intros Hrtc Hj.
  destruct (invariante_alcanzable e s Hrtc) as (_ & _ & Hs & _).
  unfold obtenerToken in Hj.
  destruct (tokensTemporales (s_mundo s) !! correo) as [d|] eqn:Hd; [|discriminate].
  destruct (vencido ahora d); [discriminate|]. simpl in Hj.
  injection Hj as _ <- <- <- _ _. split; [done|].
  by destruct (Hs correo d Hd) as (_ & _ & _ & Hm).
Qed.

Lemma token_consultado_fue_enviado_witness :
  ∃ m, m ∈ envios (enviar_token entorno_por_defecto azar_abc peticion_ana
                     (Enviado "m-1") lecturas_t0 mundo_inicial).2
       ∧ to m = JStr "ana@example.com" ∧ h_token (html m) = "ABCDEFGH"%string
       ∧ h_tipo (html m) = JStr "registro".
Proof.
  refine (proj2 (token_consultado_fue_enviado entorno_por_defecto _
                   (JStr "ana@example.com") 2000 "Token disponible"
                   (JStr "ana@example.com") "ABCDEFGH" (JStr "registro") 1000 901000
                   alcanzable_ana _)).
  vm_compute. reflexivity.
Defined.

(** At any time of a run of the service, the records of the store and the
    requests that wait for their mail are together no more than the
    counter says: every record comes from a counted issuance. *)
Theorem registros_no_superan_contador e s :
  rtc (paso_sistema e) sistema_inicial s ->
  Z.of_nat (size (tokensTemporales (s_mundo s))) + Z.of_nat (length (en_vuelo s))
    <= tokensCounter (s_mundo s).
Proof. intros Hrtc. apply (invariante_alcanzable e s Hrtc). Qed.

Lemma registros_no_superan_contador_witness :
  Z.of_nat
    (size (tokensTemporales
             (enviar_token entorno_por_defecto azar_abc peticion_ana (Enviado "m-1")
                lecturas_t0 mundo_inicial).2)) + 0
  <= tokensCounter
       (enviar_token entorno_por_defecto azar_abc peticion_ana (Enviado "m-1")
          lecturas_t0 mundo_inicial).2.
Proof.
  exact (registros_no_superan_contador entorno_por_defecto _ alcanzable_ana).
Defined.

(** ** More on the token generator *)

Lemma letra_palabra_o_mas (i : Z) :
  0 <= i < 64 ->
  es_palabra (Base64.letra i) = negb (es_mas_o_barra (Base64.letra i)).
Proof.
  intros Hi.
  assert (Htodas :
    forallb (fun n : nat =>
      Bool.eqb (es_palabra (Base64.letra (Z.of_nat n)))
        (negb (es_mas_o_barra (Base64.letra (Z.of_nat n)))))
      (seq 0 64) = true) by (vm_compute; reflexivity).
  rewrite forallb_forall in Htodas.
  specialize (Htodas (Z.to_nat i)).
  rewrite Z2Nat.id in Htodas by lia.
  apply Bool.eqb_prop, Htodas, in_seq. lia.
Qed.

Lemma codificar_6_sin_relleno (bs : list byte) :
  length bs = 6%nat ->
  Forall (fun c => es_palabra c = negb (es_mas_o_barra c)) (Base64.codificar bs).
Proof.
  intros H. do 7 (destruct bs as [|? bs]; simpl in H; try lia).
  simpl. repeat (constructor; [apply letra_palabra_o_mas, Base64Facts.sexteto_rango|]).
  constructor.
Qed.

Lemma filtros_complementarios (f g : ascii -> bool) (l : list ascii) :
  Forall (fun c => f c = negb (g c)) l ->
  (length (List.filter f l) + length (List.filter g l) = length l)%nat.
Proof.
  induction 1 as [|c l Hc _ IH]; simpl; [done|].
  rewrite Hc. destruct (g c); simpl; lia.
Qed.

Lemma filtro_vacio (g : ascii -> bool) (l : list ascii) :
  length (List.filter g l) = 0%nat <-> Forall (fun c => g c = false) l.
Proof.
  induction l as [|c l IH]; simpl.
  { split; [intros _; constructor | reflexivity]. }
  destruct (g c) eqn:Hg; simpl.
  - split; [lia|]. intros HF. apply Forall_cons in HF as [HF _]. congruence.
  - rewrite IH. split; [by constructor|]. by intros [_ ?]%Forall_cons.
Qed.

(** With six random bytes, the token has eight characters less one for
    each [+] or [/] of the base64 text of the bytes; it has eight exactly
    when the text holds neither. *)
Theorem generarToken_longitud_exacta (randomBytes : nat -> list byte) :
  length (randomBytes 6%nat) = 6%nat ->
  (String.length (generarToken randomBytes)
   + length (List.filter es_mas_o_barra (Base64.codificar (randomBytes 6%nat))) = 8)%nat
  ∧ (String.length (generarToken randomBytes) = 8%nat
     <-> Forall (fun c => es_mas_o_barra c = false)
           (Base64.codificar (randomBytes 6%nat))).
Proof.
  intros H6.
  pose proof (filtros_complementarios es_palabra es_mas_o_barra _
                (codificar_6_sin_relleno _ H6)) as Hsum.
  rewrite (Base64Facts.codificar_longitud_6 _ H6) in Hsum.
  rewrite (generarToken_longitud randomBytes H6). unfold quitar_no_palabra.
  split; [exact Hsum|]. rewrite <- filtro_vacio. lia.
Qed.

Lemma generarToken_longitud_exacta_witness :
  (String.length (generarToken azar_con_mas)
   + length (List.filter es_mas_o_barra (Base64.codificar (azar_con_mas 6))) = 8)%nat.
Proof.
  refine (proj1 (generarToken_longitud_exacta azar_con_mas _)).
  vm_compute. reflexivity.
Defined.

(** ** The cross-origin policy: results *)

Lemma indexOf_desde_no_esta (l : list string) (x : string) (i : Z) :
  0 <= i -> (indexOf_desde i l x = -1 <-> x ∉ l).
Proof.
  revert i. induction l as [|y l IH]; intros i Hi; simpl.
  - split; [intros _; apply not_elem_of_nil | done].
  - destruct (String.eqb_spec y x) as [->|Hne].
    + split; [lia|]. intros Hn. exfalso. apply Hn. by left.
    + rewrite IH by lia. rewrite not_elem_of_cons.
      split; [intros Hl; split; [congruence | done] | by intros [_ Hl]].
Qed.

(** [corsOptions.origin] lets a request through exactly when it has no
    [Origin] (or an empty one), or [NODE_ENV] is ["development"], or the
    origin is, character for character, one of the ten of [allowedOrigins];
    otherwise it answers with the error "Origen no permitido por CORS". *)
Theorem corsOptions_origin_decide NODE_ENV origin :
  (corsOptions_origin NODE_ENV origin = CorsPermitido
   <-> origin = None ∨ origin = Some ""%string
       ∨ NODE_ENV = Some "development"%string
       ∨ ∃ s, origin = Some s ∧ s ∈ allowedOrigins)
  ∧ (corsOptions_origin NODE_ENV origin ≠ CorsPermitido ->
       corsOptions_origin NODE_ENV origin = CorsError "Origen no permitido por CORS").
Proof.
  unfold corsOptions_origin. generalize allowedOrigins. intros l.
  destruct origin as [[|a s]|]; simpl.
  - split; [split; auto | intros Hx; by destruct Hx].
  - case_bool_decide as Hdev; simpl.
    + split; [split; auto | intros Hx; by destruct Hx].
    + destruct (Z.eqb_spec (indexOf_desde 0 l (String a s)) (-1)) as [Hi|Hi];
        simpl.
      * apply indexOf_desde_no_esta in Hi; [|lia].
        split; [|intros _; reflexivity]. split; [discriminate|].
        intros [Hx|[Hx|[Hx|(s' & Hs & Hin)]]]; try done. by injection Hs as <-.
      * split; [|intros Hx; by destruct Hx]. split; [|done]. intros _. do 3 right.
        exists (String a s). split; [done|].
        destruct (decide (String a s ∈ l)) as [|Hn]; [done|].
        apply (indexOf_desde_no_esta _ _ 0) in Hn; [|lia]. contradiction.
  - split; [split; auto | intros Hx; by destruct Hx].
Qed.

Lemma corsOptions_origin_decide_witness :
  corsOptions_origin (Some "production"%string) (Some "https://localhost:5500"%string)
  = CorsError "Origen no permitido por CORS".
Proof.
  destruct (corsOptions_origin_decide (Some "production"%string)
              (Some "https://localhost:5500"%string)) as [_ Hno].
  apply Hno. vm_compute. discriminate.
Defined.

(** ** Tokens of full length keep the random bytes *)

Lemma land_shiftl_bajo (k c n : Z) :
  0 <= n -> 0 <= c < 2 ^ n -> Z.land (Z.shiftl k n) c = 0.
Proof.
  intros Hn Hc. apply Z.bits_inj'. intros i Hi.
  rewrite Z.land_spec, Z.bits_0.
  destruct (Z.lt_ge_cases i n) as [Hlt|Hge].
  - rewrite Z.shiftl_spec_low by lia. reflexivity.
  - assert (Hf : Z.testbit c i = false).
    { apply Z.testbit_false; [lia|]. rewrite Z.div_small; [reflexivity|].
      split; [lia|]. apply Z.lt_le_trans with (2 ^ n); [lia|].
      apply Z.pow_le_mono_r; lia. }
    rewrite Hf. apply Bool.andb_false_r.
Qed.

Lemma grupo_suma (a b c : Z) :
  0 <= a < 256 -> 0 <= b < 256 -> 0 <= c < 256 ->
  Z.lor (Z.lor (Z.shiftl a 16) (Z.shiftl b 8)) c = a * 65536 + b * 256 + c.
Proof.
  intros Ha Hb Hc.
  assert (Hb8 : Z.shiftl b 8 = b * 256)
    by (rewrite Z.shiftl_mul_pow2 by lia; reflexivity).
  assert (Ha16 : Z.shiftl a 16 = a * 65536)
    by (rewrite Z.shiftl_mul_pow2 by lia; reflexivity).
  assert (H1 : Z.lor (Z.shiftl a 16) (Z.shiftl b 8) = a * 65536 + b * 256).
  { pose proof (Z.add_lor_land (Z.shiftl a 16) (Z.shiftl b 8)) as Hs.
    rewrite (land_shiftl_bajo a (Z.shiftl b 8) 16) in Hs;
      [lia | lia | change (2 ^ 16) with 65536; lia]. }
  rewrite H1.
  pose proof (Z.add_lor_land (a * 65536 + b * 256) c) as Hs.
  assert (Hm : a * 65536 + b * 256 = Z.shiftl (a * 256 + b) 8)
    by (rewrite Z.shiftl_mul_pow2 by lia; change (2 ^ 8) with 256; lia).
  rewrite Hm in Hs at 2.
  rewrite land_shiftl_bajo in Hs; [lia | lia | change (2 ^ 8) with 256; lia].
Qed.

Lemma sexteto_div (n k : Z) : 0 <= k -> Base64.sexteto n k = (n / 2 ^ k) mod 64.
Proof.
  intros Hk. unfold Base64.sexteto. rewrite Z.shiftr_div_pow2 by lia.
  change 63 with (Z.ones 6). rewrite Z.land_ones by lia. reflexivity.
Qed.

Lemma sextetos_determinan (n n' : Z) :
  0 <= n < 16777216 -> 0 <= n' < 16777216 ->
  Base64.sexteto n 18 = Base64.sexteto n' 18 ->
  Base64.sexteto n 12 = Base64.sexteto n' 12 ->
  Base64.sexteto n 6 = Base64.sexteto n' 6 ->
  Base64.sexteto n 0 = Base64.sexteto n' 0 ->
  n = n'.
Proof.
  intros Hn Hn'. rewrite !sexteto_div by lia.
  change (2 ^ 18) with 262144. change (2 ^ 12) with 4096.
  change (2 ^ 6) with 64. change (2 ^ 0) with 1.
  intros H18 H12 H6 H0.
  Z.to_euclidean_division_equations. lia.
Qed.

Lemma letra_inyectiva (i j : Z) :
  0 <= i < 64 -> 0 <= j < 64 -> Base64.letra i = Base64.letra j -> i = j.
Proof.
  intros Hi Hj Heq.
  assert (Htodas :
    forallb (fun a : nat =>
      forallb (fun b : nat =>
        implb (Ascii.eqb (Base64.letra (Z.of_nat a)) (Base64.letra (Z.of_nat b)))
          (Nat.eqb a b)) (seq 0 64)) (seq 0 64) = true) by (vm_compute; reflexivity).
  rewrite forallb_forall in Htodas.
  specialize (Htodas (Z.to_nat i)). rewrite forallb_forall in Htodas.
  specialize (Htodas ltac:(apply in_seq; lia) (Z.to_nat j) ltac:(apply in_seq; lia)).
  rewrite !Z2Nat.id in Htodas by lia.
  rewrite Heq, Ascii.eqb_refl in Htodas. simpl in Htodas.
  apply Nat.eqb_eq in Htodas. lia.
Qed.

Lemma octeto_rango (b : byte) : 0 <= Base64.octeto b < 256.
Proof.
  unfold Base64.octeto. pose proof (Byte.to_N_bounded b). lia.
Qed.

Lemma octeto_inyectivo (a b : byte) : Base64.octeto a = Base64.octeto b -> a = b.
Proof.
  unfold Base64.octeto. intros H. apply N2Z.inj in H.
  pose proof (Byte.of_to_N a) as Ha. rewrite H, Byte.of_to_N in Ha. congruence.
Qed.

Lemma grupo_inyectivo (a b c a' b' c' : byte) :
  Base64.codificar [a; b; c] = Base64.codificar [a'; b'; c'] ->
  a = a' ∧ b = b' ∧ c = c'.
Proof.
  simpl. intros H. injection H as H18 H12 H6 H0.
  apply letra_inyectiva in H18, H12, H6, H0; try apply Base64Facts.sexteto_rango.
  pose proof (octeto_rango a). pose proof (octeto_rango b). pose proof (octeto_rango c).
  pose proof (octeto_rango a'). pose proof (octeto_rango b'). pose proof (octeto_rango c').
  rewrite !grupo_suma in H18, H12, H6, H0 by done.
  assert (Hn : Base64.octeto a * 65536 + Base64.octeto b * 256 + Base64.octeto c
               = Base64.octeto a' * 65536 + Base64.octeto b' * 256 + Base64.octeto c')
    by (apply sextetos_determinan; [lia | lia | done..]).
  repeat split; apply octeto_inyectivo; lia.
Qed.

Lemma codificar_inyectiva_6 (bs bs' : list byte) :
  length bs = 6%nat -> length bs' = 6%nat ->
  Base64.codificar bs = Base64.codificar bs' -> bs = bs'.
Proof.
  intros H H'.
  do 7 (destruct bs as [|? bs]; simpl in H; try lia).
  do 7 (destruct bs' as [|? bs']; simpl in H'; try lia).
  intros Heq.
  change (Base64.codificar [b; b0; b1] ++ Base64.codificar [b2; b3; b4]
          = Base64.codificar [b5; b6; b7] ++ Base64.codificar [b8; b9; b10]) in Heq.
  apply app_inj_1 in Heq as [H1 H2]; [|reflexivity].
  apply grupo_inyectivo in H1 as (-> & -> & ->).
  apply grupo_inyectivo in H2 as (-> & -> & ->). reflexivity.
Qed.

Lemma filtro_todo (f : ascii -> bool) (l : list ascii) :
  Forall (fun c => f c = true) l -> List.filter f l = l.
Proof. induction 1 as [|c l Hc _ IH]; simpl; [done|]. by rewrite Hc, IH. Qed.

(** Two draws of six random bytes that both give a token of eight
    characters give the same token only if the bytes are the same: a token
    of full length carries all 48 random bits. *)
Theorem generarToken_inyectivo (rb1 rb2 : nat -> list byte) :
  length (rb1 6%nat) = 6%nat ->
  length (rb2 6%nat) = 6%nat ->
  String.length (generarToken rb1) = 8%nat ->
  String.length (generarToken rb2) = 8%nat ->
  generarToken rb1 = generarToken rb2 ->
  rb1 6%nat = rb2 6%nat.
Proof.
  intros H1 H2 L1 L2 Heq.
  assert (Hfull : ∀ rb, length (rb 6%nat) = 6%nat ->
            String.length (generarToken rb) = 8%nat ->
            list_ascii_of_string (generarToken rb) = Base64.codificar (rb 6%nat)).
  { intros rb H6 L8.
    apply (generarToken_longitud_exacta rb H6) in L8.
    unfold generarToken, substring0, quitar_no_palabra.
    rewrite list_ascii_of_string_of_list.
    rewrite filtro_todo.
    - apply firstn_all2. by rewrite (Base64Facts.codificar_longitud_6 _ H6).
    - pose proof (codificar_6_sin_relleno _ H6) as Hw.
      rewrite Forall_forall in Hw, L8. apply Forall_forall. intros c Hc.
      by rewrite (Hw c Hc), (L8 c Hc). }
  apply codificar_inyectiva_6; [done | done |].
  by rewrite <- (Hfull rb1 H1 L1), <- (Hfull rb2 H2 L2), Heq.
Qed.

Lemma generarToken_inyectivo_witness : azar_abc 6%nat = azar_abc_fijo 6%nat.
Proof.
  apply (generarToken_inyectivo azar_abc azar_abc_fijo); vm_compute; reflexivity.
Defined.

(** ** A record lasts until it expires *)

Lemma paso_hasta_conserva e correo d w w' :
  tokensTemporales w !! correo = Some d ->
  paso_hasta e correo (expira d) w w' ->
  tokensTemporales w' !! correo = Some d.
Proof.
  intros Hd Hpaso.
  assert (Hobt : ∀ c ahora, ahora <= expira d ->
            tokensTemporales (obtenerToken c ahora w).2 !! correo = Some d).
  { intros c ahora Hle. rewrite obtenerToken_lookup.
    destruct (decide (correo = c)) as [<-|Hne]; [|done].
    rewrite Hd. unfold vencido. by destruct (Z.ltb_spec (expira d) ahora); [lia|]. }
  destruct Hpaso as [rb req w | p r t w Hne | p message t w | req ahora w Hle
                    | req ahora w Hle | ahora w Hle].
  - by rewrite enviar_token_inicio_almacen.
  - destruct r; simpl; [|done]. by rewrite lookup_insert_ne.
  - done.
  - unfold post_token_enviado. destruct (truthy _); simpl; [by apply Hobt | done].
  - unfold get_token_enviado. destruct (truthy _); simpl; [by apply Hobt | done].
  - rewrite limpieza_lookup, Hd. unfold vencido.
    by destruct (Z.ltb_spec (expira d) ahora); [lia|].
Qed.

(** A stored record stays as it is until it expires, unless a new one is
    issued for its address: after any number of issuances for other
    addresses, failed issuances, lookups and runs of the clean-up, all with
    readings of the clock up to [expira], the record is still there, and a
    lookup with such a reading answers with it. *)
Theorem registro_dura_hasta_expirar e correo d w w' t :
  tokensTemporales w !! correo = Some d ->
  rtc (paso_hasta e correo (expira d)) w w' ->
  t <= expira d ->
  tokensTemporales w' !! correo = Some d
  ∧ obtenerToken correo t w' =
      (responder 200
         (CToken "Token disponible" correo (token d) (tipo d) (creado d) (expira d)),
       w').
Proof.
  intros Hd Hrtc Ht.
  assert (Hd' : tokensTemporales w' !! correo = Some d).
  { induction Hrtc as [|w1 w2 w3 Hpaso _ IH]; [done|].
    apply IH. by eapply paso_hasta_conserva. }
  split; [done|]. by apply obtenerToken_vigente.
Qed.

Lemma registro_dura_hasta_expirar_witness :
  obtenerToken (JStr "ana@example.com") 901000
    (post_token_enviado peticion_ana 600000
       (limpieza 500000
          (enviar_token entorno_por_defecto azar_abc peticion_ana (Enviado "m-1")
             lecturas_t0 mundo_inicial).2)).2
  = (responder 200
       (CToken "Token disponible" (JStr "ana@example.com") "ABCDEFGH"
          (JStr "registro") 1000 901000),
     (post_token_enviado peticion_ana 600000
        (limpieza 500000
           (enviar_token entorno_por_defecto azar_abc peticion_ana (Enviado "m-1")
              lecturas_t0 mundo_inicial).2)).2).
Proof.
  refine (proj2 (registro_dura_hasta_expirar entorno_por_defecto
                   (JStr "ana@example.com")
                   (Registro "ABCDEFGH" (JStr "registro") 1000 901000)
                   (enviar_token entorno_por_defecto azar_abc peticion_ana (Enviado "m-1")
                      lecturas_t0 mundo_inicial).2
                   _ 901000 _ _ _)).
  - vm_compute. reflexivity.
  - eapply rtc_l; [apply (ph_limpieza _ _ _ 500000); vm_compute; discriminate|].
    eapply rtc_l; [|apply rtc_refl].
    apply (ph_post _ _ _ peticion_ana 600000). vm_compute. discriminate.
  - vm_compute. discriminate.
Defined.

Example entero_decimal_ej :
  entero_decimal "15" = Some 15 ∧ entero_decimal "-150000000000" = Some (-150000000000)
  ∧ entero_decimal "+007" = Some 7 ∧ entero_decimal "0.5" = None
  ∧ entero_decimal "abc" = None ∧ entero_decimal "" = None ∧ entero_decimal "-" = None.
Proof. repeat split. Qed.

Example configuracion_por_defecto_regular :
  configuracion_regular entorno_por_defecto lecturas_t0 15.
Proof. unfold configuracion_regular. repeat split; vm_compute; discriminate. Qed.

(** ** The callback of the timer as it is *)

Lemma limpieza_bucle_sin_fallo objetos ahora orden (m : gmap jsval registro) :
  (∀ k d, m !! k = Some d -> vencido ahora d = true -> a_cadena_lanza objetos k = false) ->
  ∃ m', limpieza_bucle objetos ahora orden m = (m', false)
        ∧ ∀ k, m' !! k =
                 match m !! k with
                 | Some d => if vencido ahora d && bool_decide (k ∈ orden)
                             then None else Some d
                 | None => None
                 end.
Proof.
  revert m. induction orden as [|c resto IH]; intros m Hconv; simpl.
  - exists m. split; [done|]. intros k. destruct (m !! k) as [d|]; [|done].
    by rewrite andb_false_r.
  - assert (Hbd : ∀ k, k ≠ c -> bool_decide (k ∈ c :: resto) = bool_decide (k ∈ resto)).
    { intros k Hne. apply bool_decide_ext. rewrite elem_of_cons.
      split; [intros [Hk|Hk]; [contradiction | done] | by right]. }
    assert (Hc : bool_decide (c ∈ c :: resto) = true).
    { apply bool_decide_eq_true_2. by left. }
    destruct (m !! c) as [data|] eqn:Hm.
    + destruct (vencido ahora data) eqn:Hv.
      * rewrite (Hconv c data Hm Hv).
        destruct (IH (delete c m)) as (m' & Hb & Hl).
        { intros k d Hk. apply lookup_delete_Some in Hk as [_ Hk]. by apply Hconv. }
        exists m'. split; [done|]. intros k. rewrite Hl.
        destruct (decide (k = c)) as [->|Hne].
        -- by rewrite lookup_delete_eq, Hm, Hv, Hc.
        -- by rewrite lookup_delete_ne, Hbd by done.
      * destruct (IH m Hconv) as (m' & Hb & Hl).
        exists m'. split; [done|]. intros k. rewrite Hl.
        destruct (decide (k = c)) as [->|Hne].
        -- by rewrite Hm, Hv.
        -- by rewrite Hbd.
    + destruct (IH m Hconv) as (m' & Hb & Hl).
      exists m'. split; [done|]. intros k. rewrite Hl.
      destruct (decide (k = c)) as [->|Hne].
      * by rewrite Hm.
      * by rewrite Hbd.
Qed.

Lemma limpieza_temporizador_sin_fallo objetos orden ahora w :
  enumera orden (tokensTemporales w) ->
  (∀ k d, tokensTemporales w !! k = Some d -> vencido ahora d = true ->
          a_cadena_lanza objetos k = false) ->
  limpieza_temporizador objetos orden ahora w = Termina (limpieza ahora w).
Proof.
  intros [_ Henum] Hconv.
  destruct (limpieza_bucle_sin_fallo objetos ahora orden _ Hconv) as (m' & Hb & Hl).
  unfold limpieza_temporizador. rewrite Hb. f_equal.
  apply mundo_eq; [|done|done]. simpl.
  apply map_eq. intros k.
  change (m' !! k = tokensTemporales (limpieza ahora w) !! k).
  rewrite Hl, limpieza_lookup.
  destruct (tokensTemporales w !! k) as [d|] eqn:Hk; [|done].
  rewrite (bool_decide_eq_true_2 (k ∈ orden)) by (apply Henum; by eexists).
  by rewrite andb_true_r.
Qed.

Lemma limpieza_bucle_solo_vencidos objetos ahora orden (m : gmap jsval registro) k :
  (limpieza_bucle objetos ahora orden m).1 !! k = m !! k
  ∨ ((limpieza_bucle objetos ahora orden m).1 !! k = None
     ∧ ∃ d, m !! k = Some d ∧ vencido ahora d = true).
Proof.
  revert m. induction orden as [|c resto IH]; intros m; simpl; [by left|].
  destruct (m !! c) as [data|] eqn:Hm; [|apply IH].
  destruct (vencido ahora data) eqn:Hv; [|apply IH].
  destruct (a_cadena_lanza objetos c); [by left|].
  destruct (decide (k = c)) as [->|Hne].
  - right. split; [|by eauto].
    destruct (IH (delete c m)) as [Hi | [Hi _]]; [|done].
    by rewrite Hi, lookup_delete_eq.
  - destruct (IH (delete c m)) as [Hi | (Hi & d & Hd & Hvd)].
    + left. by rewrite Hi, lookup_delete_ne.
    + right. split; [done|]. exists d. by rewrite lookup_delete_ne in Hd.
Qed.

Lemma enumera_resto orden (m m' : gmap jsval registro) :
  enumera orden m -> m' ⊆ m ->
  enumera (filter (λ k, is_Some (m' !! k)) orden) m'.
Proof.
  intros [Hnd Hin] Hsub. split; [by apply NoDup_filter|].
  intros k. rewrite list_elem_of_filter. split; [by intros [? _]|].
  intros Hk. split; [done|]. apply Hin.
  destruct Hk as [d Hd]. exists d. by eapply lookup_weaken.
Qed.

Lemma claves_convertibles_resto objetos (m m' : gmap jsval registro) :
  claves_convertibles objetos m -> m' ⊆ m -> claves_convertibles objetos m'.
Proof.
  intros Hc Hsub k [d Hd]. apply Hc. exists d. by eapply lookup_weaken.
Qed.

Lemma enumera_mundo_ana :
  enumera [JStr "ana@example.com"]
    (tokensTemporales
       (enviar_token entorno_por_defecto azar_abc peticion_ana (Enviado "m-1")
          lecturas_t0 mundo_inicial).2).
Proof.
  split; [apply NoDup_singleton|]. intros k. rewrite list_elem_of_singleton.
  rewrite (enviar_token_enviado entorno_por_defecto azar_abc peticion_ana "m-1"
             lecturas_t0 mundo_inicial)
    by (split; [vm_compute; reflexivity | left; vm_compute; reflexivity]).
  change (prop (body peticion_ana) "correo") with (JStr "ana@example.com"). simpl.
  split.
  - intros ->. rewrite lookup_insert_eq. by eexists.
  - intros [d Hd]. destruct (decide (k = JStr "ana@example.com")) as [|Hne]; [done|].
    rewrite lookup_insert_ne in Hd by done. by rewrite lookup_empty in Hd.
Qed.

Lemma claves_convertibles_mundo_ana :
  claves_convertibles objetos_uno
    (tokensTemporales
       (enviar_token entorno_por_defecto azar_abc peticion_ana (Enviado "m-1")
          lecturas_t0 mundo_inicial).2).
Proof.
  intros k Hk. apply enumera_mundo_ana in Hk.
  apply list_elem_of_singleton in Hk. by subst k.
Qed.

(** When no key of the store throws on its conversion to a string, two
    runs of the callback end normally and amount to one run at the later
    of their two readings of the clock; the second run goes over the keys
    that the first has left, in the same order. *)
Theorem limpieza_temporizador_compone objetos orden t1 t2 w :
  claves_convertibles objetos (tokensTemporales w) ->
  enumera orden (tokensTemporales w) ->
  ∃ w1 w2,
    limpieza_temporizador objetos orden t1 w = Termina w1
    ∧ limpieza_temporizador objetos
        (filter (λ k, is_Some (tokensTemporales w1 !! k)) orden) t2 w1 = Termina w2
    ∧ limpieza_temporizador objetos orden (Z.max t1 t2) w = Termina w2.
Proof.
  intros Hconv Henum.
  assert (Hc : ∀ ahora k d, tokensTemporales w !! k = Some d ->
                 vencido ahora d = true -> a_cadena_lanza objetos k = false).
  { intros ahora k d Hk _. apply Hconv. by eexists. }
  pose proof (limpieza_sin_altas t1 w) as (Hsub & _ & _).
  exists (limpieza t1 w), (limpieza t2 (limpieza t1 w)).
  split; [apply limpieza_temporizador_sin_fallo; [done | apply Hc]|]. split.
  - apply limpieza_temporizador_sin_fallo.
    + by apply (enumera_resto orden (tokensTemporales w)).
    + intros k d Hk _. apply (claves_convertibles_resto objetos _ _ Hconv Hsub).
      by eexists.
  - rewrite (proj1 (limpieza_maximo t1 t2 w)).
    apply limpieza_temporizador_sin_fallo; [done | apply Hc].
Qed.

Lemma limpieza_temporizador_compone_witness :
  ∃ w1 w2,
    limpieza_temporizador objetos_uno [JStr "ana@example.com"] 5000
      (enviar_token entorno_por_defecto azar_abc peticion_ana (Enviado "m-1")
         lecturas_t0 mundo_inicial).2 = Termina w1
    ∧ limpieza_temporizador objetos_uno
        (filter (λ k, is_Some (tokensTemporales w1 !! k)) [JStr "ana@example.com"])
        901001 w1 = Termina w2
    ∧ limpieza_temporizador objetos_uno [JStr "ana@example.com"] (Z.max 5000 901001)
        (enviar_token entorno_por_defecto azar_abc peticion_ana (Enviado "m-1")
           lecturas_t0 mundo_inicial).2 = Termina w2.
Proof.
  exact (limpieza_temporizador_compone objetos_uno [JStr "ana@example.com"]
           5000 901001 _ claves_convertibles_mundo_ana enumera_mundo_ana).
Defined.

(** When no key of the store throws on its conversion to a string, a
    lookup and a run of the callback leave the same state in either order,
    whatever their readings of the clock (the run made after the lookup
    goes over the keys that the lookup has left); and when the reading of
    the run is not before the one of the lookup, a lookup made after the run
    deletes nothing more. *)
Theorem limpieza_temporizador_y_consulta_conmutan objetos orden correo t ahora w :
  claves_convertibles objetos (tokensTemporales w) ->
  enumera orden (tokensTemporales w) ->
  ∃ w1,
    limpieza_temporizador objetos orden ahora w = Termina w1
    ∧ limpieza_temporizador objetos
        (filter (λ k, is_Some (tokensTemporales (obtenerToken correo t w).2 !! k)) orden)
        ahora (obtenerToken correo t w).2
      = Termina (obtenerToken correo t w1).2
    ∧ (t <= ahora -> (obtenerToken correo t w1).2 = w1).
Proof.
  intros Hconv Henum.
  pose proof (obtenerToken_sin_altas correo t w) as (Hsub & _ & _).
  exists (limpieza ahora w). split; [|split].
  - apply limpieza_temporizador_sin_fallo; [done|].
    intros k d Hk _. apply Hconv. by eexists.
  - rewrite (proj1 (limpieza_consulta_orden correo t ahora w)).
    apply limpieza_temporizador_sin_fallo.
    + by apply (enumera_resto orden (tokensTemporales w)).
    + intros k d Hk _. apply (claves_convertibles_resto objetos _ _ Hconv Hsub).
      by eexists.
  - intros Hle. rewrite (proj1 (limpieza_consulta_orden correo t ahora w)).
    by apply limpieza_consulta_orden.
Qed.

Lemma limpieza_temporizador_y_consulta_conmutan_witness :
  ∃ w1,
    limpieza_temporizador objetos_uno [JStr "ana@example.com"] 901001
      (enviar_token entorno_por_defecto azar_abc peticion_ana (Enviado "m-1")
         lecturas_t0 mundo_inicial).2 = Termina w1
    ∧ (obtenerToken (JStr "ana@example.com") 901001 w1).2 = w1.
Proof.
  destruct (limpieza_temporizador_y_consulta_conmutan objetos_uno
              [JStr "ana@example.com"] (JStr "ana@example.com") 901001 901001 _
              claves_convertibles_mundo_ana enumera_mundo_ana) as (w1 & H1 & _ & H3).
  exists w1. split; [exact H1|]. apply H3. vm_compute. discriminate.
Defined.

(** A run of the callback in which no expired record sits under a key
    that throws on its conversion to a string ends normally and removes
    exactly the expired records: afterwards an address has a record exactly
    when it had one with [ahora > expira] false, and that record is the
    same; the counter and the calls made are untouched. *)
Theorem limpieza_temporizador_quita_vencidos objetos orden ahora w :
  enumera orden (tokensTemporales w) ->
  (∀ k d, tokensTemporales w !! k = Some d -> expira d < ahora ->
          a_cadena_lanza objetos k = false) ->
  ∃ w',
    limpieza_temporizador objetos orden ahora w = Termina w'
    ∧ (∀ k, tokensTemporales w' !! k =
              match tokensTemporales w !! k with
              | Some d => if expira d <? ahora then None else Some d
              | None => None
              end)
    ∧ tokensCounter w' = tokensCounter w
    ∧ efectos w' = efectos w.
Proof.
  intros Henum Hconv. exists (limpieza ahora w). split; [|split; [|done]].
  - apply limpieza_temporizador_sin_fallo; [done|].
    intros k d Hk Hv. apply (Hconv k d Hk). by apply Z.ltb_lt.
  - intros k. apply limpieza_lookup.
Qed.

Lemma limpieza_temporizador_quita_vencidos_witness :
  ∃ w',
    limpieza_temporizador objetos_uno [JStr "ana@example.com"] 901001
      (enviar_token entorno_por_defecto azar_abc peticion_ana (Enviado "m-1")
         lecturas_t0 mundo_inicial).2 = Termina w'
    ∧ tokensTemporales w' !! JStr "ana@example.com" = None.
Proof.
  destruct (limpieza_temporizador_quita_vencidos objetos_uno [JStr "ana@example.com"]
              901001 _ enumera_mundo_ana) as (w' & H1 & H2 & _).
  - intros k d Hk _. apply claves_convertibles_mundo_ana. by eexists.
  - exists w'. split; [exact H1|]. rewrite H2. vm_compute. reflexivity.
Defined.

Lemma limpieza_bucle_lanza objetos ahora orden (m m' : gmap jsval registro) :
  limpieza_bucle objetos ahora orden m = (m', true) ->
  ∃ k d, m' !! k = Some d ∧ vencido ahora d = true ∧ a_cadena_lanza objetos k = true.
Proof.
  revert m. induction orden as [|c resto IH]; intros m; simpl; [discriminate|].
  destruct (m !! c) as [data|] eqn:Hm; [|apply IH].
  destruct (vencido ahora data) eqn:Hv; [|apply IH].
  destruct (a_cadena_lanza objetos c) eqn:Hl; [|apply IH].
  intros [= <-]. by exists c, data.
Qed.

(** Whatever the keys and their order, a run of the callback, whether it
    ends normally or throws, removes expired records only: every record
    with [ahora > expira] false stays as it is, the counter and the calls
    made are untouched; and it throws only with an expired record still in
    the store under a key whose conversion to a string throws. *)
Theorem limpieza_temporizador_solo_vencidos objetos orden ahora w w' :
  limpieza_temporizador objetos orden ahora w = Termina w'
  ∨ limpieza_temporizador objetos orden ahora w = Lanza w' ->
  (∀ k, tokensTemporales w' !! k = tokensTemporales w !! k
        ∨ (tokensTemporales w' !! k = None
           ∧ ∃ d, tokensTemporales w !! k = Some d ∧ expira d < ahora))
  ∧ tokensCounter w' = tokensCounter w
  ∧ efectos w' = efectos w
  ∧ (limpieza_temporizador objetos orden ahora w = Lanza w' ->
     ∃ k d, tokensTemporales w' !! k = Some d ∧ expira d < ahora
            ∧ a_cadena_lanza objetos k = true).
Proof.
  unfold limpieza_temporizador.
  destruct (limpieza_bucle objetos ahora orden (tokensTemporales w)) as [m b] eqn:Hb.
  assert (Hk : ∀ k, m !! k = tokensTemporales w !! k
                    ∨ (m !! k = None
                       ∧ ∃ d, tokensTemporales w !! k = Some d ∧ expira d < ahora)).
  { intros k.
    pose proof (limpieza_bucle_solo_vencidos objetos ahora orden (tokensTemporales w) k)
      as Hs.
    rewrite Hb in Hs. simpl in Hs. destruct Hs as [Hs | (Hs & d & Hd & Hv)]; [by left|].
    right. split; [done|]. exists d. split; [done|]. by apply Z.ltb_lt. }
  destruct b; intros [Heq | Heq]; try discriminate; injection Heq as <-; simpl.
  - split; [exact Hk|]. split; [done|]. split; [done|]. intros _.
    destruct (limpieza_bucle_lanza objetos ahora orden _ _ Hb) as (k & d & Hd & Hv & Hl).
    exists k, d. split; [done|]. split; [by apply Z.ltb_lt | done].
  - split; [exact Hk|]. split; [done|]. split; [done|]. discriminate.
Qed.

Lemma limpieza_temporizador_solo_vencidos_witness :
  ∃ k d,
    tokensTemporales
      (enviar_token entorno_por_defecto azar_abc peticion_objeto (Enviado "m-1")
         lecturas_t0 mundo_inicial).2 !! k = Some d
    ∧ expira d < 901001
    ∧ a_cadena_lanza objetos_uno k = true.
Proof.
  refine (proj2 (proj2 (proj2 (limpieza_temporizador_solo_vencidos objetos_uno [JRef 1]
            901001
            (enviar_token entorno_por_defecto azar_abc peticion_objeto (Enviado "m-1")
               lecturas_t0 mundo_inicial).2
            (enviar_token entorno_por_defecto azar_abc peticion_objeto (Enviado "m-1")
               lecturas_t0 mundo_inicial).2 _))) _).
  - right. vm_compute. reflexivity.
  - vm_compute. reflexivity.
Defined.
